(** * Digital kaleidoscope: a shallow embedding of [src/main.c]

    The program draws animated dot patterns on a 128x64 monochrome canvas.
    Its state is four C globals ([app_running], [dot_threshold], [style],
    [frame]); seven generators paint the canvas, [render_pattern] picks one
    of them, and [input_callback] changes [style] and [dot_threshold].

    Integers are modelled as [Z] with the wrap-around of their C type
    written out, [float] as IEEE-754 binary32 values ([spec_float] at
    precision 24), the canvas as the list of dots drawn since the last
    clear, and the C library ([cosf], [sinf], [atan2f], [rand], [srand])
    as interfaces the generators are parameterised by. *)

From Stdlib Require Import ZArith List Bool Lia SpecFloat.
Import ListNotations.
Open Scope Z_scope.

(** ** Machine integers *)

(** Conversion to [uint8_t] and to [uint32_t]. *)
Definition u8 (z : Z) : Z := z mod 2 ^ 8.
Definition u32 (z : Z) : Z := z mod 2 ^ 32.

(** Screen dimensions. *)
Definition W : Z := 128.
Definition H : Z := 64.

(** Clamp helper.  Its arguments are [uint8_t]: a caller passing an [int]
    expression converts it with [u8] first. *)
Definition clamp_u8 (v lo hi : Z) : Z :=
  if v <? lo then lo else if v >? hi then hi else v.

(** ** Single-precision floating point *)

Module F32.

Definition prec : Z := 24.
Definition emax : Z := 128.

Definition float : Type := spec_float.

(** Conversion of an integer to [float] (round to nearest, ties to even). *)
Definition of_int (z : Z) : float := binary_normalize prec emax z 0 false.

Definition add : float -> float -> float := SFadd prec emax.
Definition sub : float -> float -> float := SFsub prec emax.
Definition mul : float -> float -> float := SFmul prec emax.
Definition div : float -> float -> float := SFdiv prec emax.
Definition sqrtf : float -> float := SFsqrt prec emax.

(** [a > b] on floats; false when either side is a NaN. *)
Definition gt (a b : float) : bool := SFltb b a.

(** The decimal literal [p/q] (as in [0.05f] = 5/100): the binary32 value
    nearest to it.  Both [p] and [q] are below 2^24, hence exact, and the
    division rounds correctly. *)
Definition lit (p q : Z) : float := div (of_int p) (of_int q).

(** The conversion [(int)x]: truncation toward zero.  C leaves the
    conversion of a NaN or an infinity undefined; the model gives 0. *)
Definition to_int (x : float) : Z :=
  match x with
  | S754_finite s m e =>
      let v := Z.shiftl (Zpos m) e in if s then - v else v
  | _ => 0
  end.

(** [floorf]: the largest integral value not above [x]. *)
Definition floorf (x : float) : float :=
  match x with
  | S754_finite s m (Zneg p) =>
      let q := Z.shiftr (Zpos m) (Zpos p) in
      let exact := Z.shiftl q (Zpos p) =? Zpos m in
      if s then binary_normalize prec emax (if exact then - q else - (q + 1)) 0 true
      else binary_normalize prec emax q 0 false
  | _ => x
  end.

End F32.

Declare Scope f32_scope.
Delimit Scope f32_scope with f32.
Infix "+" := F32.add : f32_scope.
Infix "-" := F32.sub : f32_scope.
Infix "*" := F32.mul : f32_scope.
Infix "/" := F32.div : f32_scope.
Infix ">" := F32.gt : f32_scope.

(** ** The C library *)

(** The three [math.h] functions whose results the C standard does not pin
    down bit for bit. *)
Class LibM : Type := {
  cosf : F32.float -> F32.float;
  sinf : F32.float -> F32.float;
  atan2f : F32.float -> F32.float -> F32.float
}.

(** The shared pseudorandom source of [stdlib.h]: [rand] returns a draw and
    the next generator state, [srand] installs a seed. *)
Class RandSource : Type := {
  Rng : Type;
  rand : Rng -> Z * Rng;
  srand : Z -> Rng -> Rng
}.

(** ** Input events *)

(** Modelled from the spec: the declarations of [input/input.h] are not part
    of the sources.  The key identifiers are Up, Down, Left, Right, Back and
    one other key (Ok); the press types are short press and the others. *)
Inductive InputKey : Type :=
  | InputKeyUp | InputKeyDown | InputKeyRight | InputKeyLeft
  | InputKeyOk | InputKeyBack.

Inductive InputType : Type :=
  | InputTypePress | InputTypeRelease | InputTypeShort
  | InputTypeLong | InputTypeRepeat.

Record InputEvent : Type := mkInputEvent {
  key : InputKey;
  type : InputType
}.

Definition InputType_eqb (a b : InputType) : bool :=
  match a, b with
  | InputTypePress, InputTypePress
  | InputTypeRelease, InputTypeRelease
  | InputTypeShort, InputTypeShort
  | InputTypeLong, InputTypeLong
  | InputTypeRepeat, InputTypeRepeat => true
  | _, _ => false
  end.

(** ** Program state *)

Definition Canvas : Type := list (Z * Z).

Section Program.

Context {libm : LibM} {rnd : RandSource}.

(** The globals of [main.c], the state of the random source and the
    canvas the host hands to the draw callback. *)
Record World : Type := mkWorld {
  app_running : bool;
  dot_threshold : Z;
  style : Z;
  frame : Z;
  rng : Rng;
  canvas : Canvas
}.

Definition set_app_running (b : bool) (w : World) : World :=
  mkWorld b (dot_threshold w) (style w) (frame w) (rng w) (canvas w).
Definition set_dot_threshold (d : Z) (w : World) : World :=
  mkWorld (app_running w) d (style w) (frame w) (rng w) (canvas w).
Definition set_style (s : Z) (w : World) : World :=
  mkWorld (app_running w) (dot_threshold w) s (frame w) (rng w) (canvas w).
Definition set_frame (f : Z) (w : World) : World :=
  mkWorld (app_running w) (dot_threshold w) (style w) f (rng w) (canvas w).
Definition set_rng (r : Rng) (w : World) : World :=
  mkWorld (app_running w) (dot_threshold w) (style w) (frame w) r (canvas w).
Definition set_canvas (c : Canvas) (w : World) : World :=
  mkWorld (app_running w) (dot_threshold w) (style w) (frame w) (rng w) c.

(** The state at program start, once [srand(furi_get_tick())] has run. *)
Definition initial (tick : Z) (r0 : Rng) : World :=
  mkWorld true 50 0 0 (srand tick r0) [].

(** *** Statements *)

Definition Cmd : Type := World -> World.

Definition skip : Cmd := fun w => w.
Definition seq (a b : Cmd) : Cmd := fun w => b (a w).
Definition when (c : bool) (a : Cmd) : Cmd := if c then a else skip.

Notation "a ;; b" := (seq a b) (at level 61, right associativity).

(** The integers [lo, lo+1, ..., hi-1]. *)
Definition zrange (lo hi : Z) : list Z :=
  map (fun i => lo + Z.of_nat i) (List.seq 0 (Z.to_nat (hi - lo))).

(** [for(i = lo; i < hi; i++) body] *)
Definition for_range (lo hi : Z) (body : Z -> Cmd) : Cmd :=
  fun w => fold_left (fun w i => body i w) (zrange lo hi) w.

(** [for(i = lo; i < hi; i += step) body], at most [fuel] iterations. *)
Fixpoint for_step (fuel : nat) (i hi step : Z) (body : Z -> Cmd) : Cmd :=
  match fuel with
  | O => skip
  | S k => if i <? hi then seq (body i) (for_step k (i + step) hi step body)
           else skip
  end.

(** *** Canvas operations and the random source *)

Definition canvas_clear : Cmd := set_canvas [].
Definition canvas_draw_dot (x y : Z) : Cmd :=
  fun w => set_canvas ((x, y) :: canvas w) w.

(** A pixel is lit when a dot was drawn on it since the last clear. *)
Definition is_lit (w : World) (x y : Z) : Prop := In (x, y) (canvas w).

(** [v = rand(); k v] *)
Definition with_rand (k : Z -> Cmd) : Cmd :=
  fun w => let (v, r) := rand (rng w) in k v (set_rng r w).

(** A function that reads the globals on entry and then runs a
    statement. *)
Definition reading (body : World -> Cmd) : Cmd := fun w => body w w.

(** *** The generators

    C's [/] and [%] on integers truncate: [Z.quot] and [Z.rem].  No
    generator writes [dot_threshold] or [frame], so each reads them from
    the state it starts in. *)

(** Random mirrored dots (dispatched at index 3 and as the default). *)
Definition render_style0 : Cmd := reading (fun w =>
  (canvas_clear ;;
   for_range 0 (Z.quot W 2) (fun x =>
     for_range 0 H (fun y =>
       with_rand (fun v =>
         when (Z.rem v 100 <? dot_threshold w)
           (canvas_draw_dot x y ;;
            canvas_draw_dot (W - 1 - x) y)))))).

(** Animated concentric-arc segments (index 1). *)
Definition render_style1 : Cmd := reading (fun w =>
  let cx := Z.quot W 2 in
  let cy := Z.quot H 2 in
  let step := clamp_u8 (u8 (Z.quot (dot_threshold w) 10 + 2)) 2 10 in
  let offset := Z.rem (frame w) step in
  (canvas_clear ;;
   for_step (Z.to_nat cy) offset cy step (fun r =>
     for_range (- r) (r + 1) (fun dy =>
       let inside := r * r - dy * dy in
       if inside <? 0 then skip else
       let xf := F32.sqrtf (F32.of_int inside) in
       let dx := F32.to_int (xf + F32.lit 5 10)%f32 in
       canvas_draw_dot (cx - dx) (cy + dy) ;;
       canvas_draw_dot (cx + dx) (cy + dy))))).

(** Animated rotated-line star (index 0). *)
Definition render_style2 : Cmd := reading (fun w =>
  let cx := Z.quot W 2 in
  let cy := Z.quot H 2 in
  let spokes := clamp_u8 (u8 (Z.quot (dot_threshold w) 10 + 2)) 2 16 in
  let base_angle := (F32.of_int (frame w) * F32.lit 5 100)%f32 in
  let angle_step := (F32.lit 314159 100000 / F32.of_int spokes)%f32 in
  (canvas_clear ;;
   for_range 0 spokes (fun s =>
     let angle := (base_angle + F32.of_int s * angle_step)%f32 in
     for_range 0 (Z.quot W 2) (fun len =>
       let x_off := F32.to_int (cosf angle * F32.of_int len)%f32 in
       let y_off := F32.to_int (sinf angle * F32.of_int len)%f32 in
       canvas_draw_dot (cx + x_off) (cy + y_off) ;;
       canvas_draw_dot (cx - x_off) (cy + y_off)) ;;
     let perp := (angle + F32.lit 314159 100000 / F32.lit 2 1)%f32 in
     for_range 0 (Z.quot H 2) (fun len =>
       let x_off := F32.to_int (cosf perp * F32.of_int len)%f32 in
       let y_off := F32.to_int (sinf perp * F32.of_int len)%f32 in
       canvas_draw_dot (cx + x_off) (cy + y_off) ;;
       canvas_draw_dot (cx - x_off) (cy + y_off))))).

(** Animated quadrant-based noise (index 2).  [tick] is the value
    [furi_get_tick()] returns during the call. *)
Definition render_style3 (tick : Z) : Cmd := reading (fun w =>
  let cx := Z.quot W 2 in
  let cy := Z.quot H 2 in
  let maxDist := cx + cy in
  (canvas_clear ;;
   (fun w' => set_rng (srand (Z.lxor (u32 tick) (frame w)) (rng w')) w') ;;
   for_range 0 W (fun x =>
     for_range 0 H (fun y =>
       let dx := Z.abs (x - cx) in
       let dy := Z.abs (y - cy) in
       let dist := dx + dy in
       let localThresh :=
         dot_threshold w - Z.quot (dist * dot_threshold w) maxDist in
       let localThresh := if localThresh <? 0 then 0 else localThresh in
       with_rand (fun v =>
         when (Z.rem v 100 <? u8 localThresh) (canvas_draw_dot x y)))))).

(** Spiral swirl (index 4). *)
Definition render_style4 : Cmd := reading (fun w =>
  let cx := Z.quot W 2 in
  let cy := Z.quot H 2 in
  (canvas_clear ;;
   for_range 0 H (fun y =>
     for_range 0 W (fun x =>
       let dx := F32.of_int (x - cx) in
       let dy := F32.of_int (y - cy) in
       let r := F32.sqrtf (dx * dx + dy * dy)%f32 in
       let angle := atan2f dy dx in
       let val :=
         sinf (r * F32.lit 3 10 + angle * F32.lit 6 1
               - F32.of_int (frame w) * F32.lit 1 10)%f32 in
       when (val > F32.lit 8 10)%f32 (canvas_draw_dot x y))))).

(** Animated checkerboard wave (index 5). *)
Definition render_style5 : Cmd := reading (fun w =>
  (canvas_clear ;;
   for_range 0 H (fun y =>
     for_range 0 W (fun x =>
       let nx :=
         (F32.of_int x * F32.lit 1 10
          + F32.of_int (frame w) * F32.lit 5 100)%f32 in
       let ny := (F32.of_int y * F32.lit 1 10)%f32 in
       let checker :=
         Z.land (F32.to_int (F32.floorf nx) + F32.to_int (F32.floorf ny)) 1 in
       when (negb (checker =? 0))
         (let wave :=
            (sinf (nx * F32.lit 15 10) * cosf (ny * F32.lit 15 10))%f32 in
          when (wave > F32.lit 3 10)%f32 (canvas_draw_dot x y)))))).

(** Pulsating radial sunburst (index 6). *)
Definition render_style6 : Cmd := reading (fun w =>
  let cx := Z.quot W 2 in
  let cy := Z.quot H 2 in
  let rays := 6 + Z.quot (dot_threshold w) 5 in
  let speed := (F32.of_int (frame w) * F32.lit 8 100)%f32 in
  (canvas_clear ;;
   for_range 0 H (fun y =>
     for_range 0 W (fun x =>
       let dx := F32.of_int (x - cx) in
       let dy := F32.of_int (y - cy) in
       let r := F32.sqrtf (dx * dx + dy * dy)%f32 in
       let angle := atan2f dy dx in
       let ray_val := cosf (angle * F32.of_int rays + speed)%f32 in
       let ring_val :=
         sinf (r * F32.lit 25 100 - speed * F32.lit 7 10)%f32 in
       when (ray_val * ring_val > F32.lit 65 100)%f32
         (canvas_draw_dot x y))))).

(** *** The dispatcher *)

(** [frame++] on a [uint32_t]. *)
Definition incr_frame : Cmd := fun w => set_frame (u32 (frame w + 1)) w.

(** General render switcher. *)
Definition render_pattern (tick : Z) : Cmd :=
  incr_frame ;;
  (fun w =>
     if style w =? 0 then render_style2 w
     else if style w =? 1 then render_style1 w
     else if style w =? 2 then render_style3 tick w
     else if style w =? 3 then render_style0 w
     else if style w =? 4 then render_style4 w
     else if style w =? 5 then render_style5 w
     else if style w =? 6 then render_style6 w
     else render_style0 w).

(** ViewPort draw callback. *)
Definition view_callback (tick : Z) : Cmd := render_pattern tick.

(** *** The input handler *)

(** ViewPort input callback.  The boolean tells whether the handler called
    [view_port_update], that is, whether it requested a redraw. *)
Definition input_callback (event : InputEvent) (w : World) : World * bool :=
  if negb (InputType_eqb (type event) InputTypeShort) then (w, false)
  else
    match key event with
    | InputKeyBack => (set_app_running false w, false)
    | InputKeyLeft =>
        (set_style (if style w =? 0 then 6 else u8 (style w - 1)) w, true)
    | InputKeyRight =>
        (set_style (if style w =? 6 then 0 else u8 (style w + 1)) w, true)
    | InputKeyUp =>
        (set_dot_threshold (clamp_u8 (u8 (dot_threshold w + 10)) 0 100) w,
         true)
    | InputKeyDown =>
        (set_dot_threshold
           (if dot_threshold w <? 10 then 0 else u8 (dot_threshold w - 10)) w,
         true)
    | _ => (w, false)
    end.

(** *** Runs of the program *)

(** What the host delivers: an input event, or a draw request (from the
    main loop's periodic [view_port_update] or from the handler's) served
    while the tick counter reads [tick]. *)
Inductive Action : Type :=
  | Input (event : InputEvent)
  | Draw (tick : Z).

Definition step (w : World) (a : Action) : World :=
  match a with
  | Input event => fst (input_callback event w)
  | Draw tick => view_callback tick w
  end.

Definition run (acts : list Action) (w : World) : World :=
  fold_left step acts w.

(** The number of draw requests in a run. *)
Definition is_draw (a : Action) : bool :=
  match a with Draw _ => true | Input _ => false end.
Definition draws (acts : list Action) : Z :=
  Z.of_nat (length (filter is_draw acts)).

(** *** Vocabulary of the properties *)

(** [c] keeps the property [P] of the state. *)
Definition preserves (P : World -> Prop) (c : Cmd) : Prop :=
  forall w, P w -> P (c w).

Definition globals (w : World) : bool * Z * Z * Z :=
  (app_running w, dot_threshold w, style w, frame w).

(** [c] writes none of the four globals. *)
Definition keeps_globals (c : Cmd) : Prop :=
  forall g, preserves (fun w => globals w = g) c.

(** The seven generators. *)
Definition generators (tick : Z) : list Cmd :=
  [render_style0; render_style1; render_style2; render_style3 tick;
   render_style4; render_style5; render_style6].

(** One dispatcher invocation per tick of the list. *)
Definition renders (ticks : list Z) (w : World) : World :=
  fold_left (fun w tick => render_pattern tick w) ticks w.

(** Every dot lies on the W x H grid. *)
Definition in_bounds (c : Canvas) : Prop :=
  forall x y, In (x, y) c -> 0 <= x < W /\ 0 <= y < H.

(** The canvas holds the mirror image [m p] of each of its dots [p]. *)
Definition closed_under (m : Z * Z -> Z * Z) (c : Canvas) : Prop :=
  forall p, In p c -> In (m p) c.

(** Mirror in the vertical line between columns W/2-1 and W/2. *)
Definition mirror_columns (p : Z * Z) : Z * Z := (W - 1 - fst p, snd p).

(** Mirror in the vertical line through the centre column W/2. *)
Definition mirror_centre (p : Z * Z) : Z * Z := (W - fst p, snd p).

(** Point reflection in the centre (W/2, H/2). *)
Definition mirror_point (p : Z * Z) : Z * Z := (W - fst p, H - snd p).

(** A short press of key [k]. *)
Definition short (k : InputKey) : InputEvent := mkInputEvent k InputTypeShort.

(** The ranges the two parameters are meant to stay in. *)
Definition valid (w : World) : Prop :=
  0 <= style w <= 6 /\ 0 <= dot_threshold w <= 100.

(** What the loops of [render_style0] maintain: the dots come in mirrored
    pairs and lie on the grid. *)
Definition paired (w : World) : Prop :=
  closed_under mirror_columns (canvas w) /\ in_bounds (canvas w).

(** [n] short presses of key [k] in a row. *)
Definition presses (k : InputKey) (n : nat) (w : World) : World :=
  Nat.iter n (fun w => fst (input_callback (short k) w)) w.

(** The state of the random source after [n] calls of [rand]. *)
Definition advance (n : nat) (r : Rng) : Rng :=
  Nat.iter n (fun r => snd (rand r)) r.

(** Mirror in the horizontal line through the centre row H/2. *)
Definition mirror_row (p : Z * Z) : Z * Z := (fst p, H - snd p).

(** The per-pixel tests of the swirl, the checkerboard and the sunburst. *)
Definition swirl_on (frame x y : Z) : bool :=
  let dx := F32.of_int (x - Z.quot W 2) in
  let dy := F32.of_int (y - Z.quot H 2) in
  let r := F32.sqrtf (dx * dx + dy * dy)%f32 in
  let angle := atan2f dy dx in
  (sinf (r * F32.lit 3 10 + angle * F32.lit 6 1
         - F32.of_int frame * F32.lit 1 10)
   > F32.lit 8 10)%f32.

Definition checker_on (frame x y : Z) : bool :=
  let nx :=
    (F32.of_int x * F32.lit 1 10 + F32.of_int frame * F32.lit 5 100)%f32 in
  let ny := (F32.of_int y * F32.lit 1 10)%f32 in
  negb (Z.land (F32.to_int (F32.floorf nx) + F32.to_int (F32.floorf ny)) 1
        =? 0)
  && (sinf (nx * F32.lit 15 10) * cosf (ny * F32.lit 15 10)
      > F32.lit 3 10)%f32.

Definition sunburst_on (frame density x y : Z) : bool :=
  let rays := 6 + Z.quot density 5 in
  let speed := (F32.of_int frame * F32.lit 8 100)%f32 in
  let dx := F32.of_int (x - Z.quot W 2) in
  let dy := F32.of_int (y - Z.quot H 2) in
  let r := F32.sqrtf (dx * dx + dy * dy)%f32 in
  let angle := atan2f dy dx in
  (cosf (angle * F32.of_int rays + speed)
   * sinf (r * F32.lit 25 100 - speed * F32.lit 7 10)
   > F32.lit 65 100)%f32.

(** [rand] returns values from 0 up, as the C library's does. *)
Definition rand_nonneg : Prop := forall r, 0 <= fst (rand r).

(** [srand] installs the seed whatever the generator's state was. *)
Definition srand_resets : Prop := forall seed r r', srand seed r = srand seed r'.

(** [c] and the state change [f] can be done in either order. *)
Definition commutes (f : World -> World) (c : Cmd) : Prop :=
  forall w, c (f w) = f (c w).

(** [c] leaves the random source alone. *)
Definition keeps_rng (c : Cmd) : Prop :=
  forall r, preserves (fun w => rng w = r) c.

(** [c] calls [rand] exactly [n] times and does nothing else to the random
    source. *)
Definition consumes (c : Cmd) (n : nat) : Prop :=
  forall w, rng (c w) = advance n (rng w).

(** [c] does nothing but draw the dots [l], the last one first. *)
Definition paints (c : Cmd) (l : Canvas) : Prop :=
  forall w, c w = set_canvas (l ++ canvas w) w.

(** The values the index of [for_step] takes. *)
Fixpoint steps (fuel : nat) (i hi step : Z) : list Z :=
  match fuel with
  | O => []
  | S k => if i <? hi then i :: steps k (i + step) hi step else []
  end.

(** The half-chord [render_style1] computes for [inside] = r^2 - dy^2. *)
Definition half_chord (inside : Z) : Z :=
  F32.to_int (F32.sqrtf (F32.of_int inside) + F32.lit 5 10)%f32.

(** The two dots [render_style1] draws at height [dy] of the ring of
    radius [r], and all the dots of that ring. *)
Definition chord_dots (r dy : Z) : Canvas :=
  let inside := r * r - dy * dy in
  if inside <? 0 then []
  else [(Z.quot W 2 + half_chord inside, Z.quot H 2 + dy);
        (Z.quot W 2 - half_chord inside, Z.quot H 2 + dy)].
Definition ring_dots (r : Z) : Canvas :=
  flat_map (chord_dots r) (rev (zrange (- r) (r + 1))).

(** The angle of spoke [s] in [render_style2], and of its perpendicular. *)
Definition spoke_angle (frame spokes s : Z) : F32.float :=
  (F32.of_int frame * F32.lit 5 100
   + F32.of_int s * (F32.lit 314159 100000 / F32.of_int spokes))%f32.
Definition perp_angle (frame spokes s : Z) : F32.float :=
  (spoke_angle frame spokes s + F32.lit 314159 100000 / F32.lit 2 1)%f32.

(** The offsets [(int)(cosf(a) * len)] and [(int)(sinf(a) * len)]. *)
Definition x_off (a : F32.float) (len : Z) : Z :=
  F32.to_int (cosf a * F32.of_int len)%f32.
Definition y_off (a : F32.float) (len : Z) : Z :=
  F32.to_int (sinf a * F32.of_int len)%f32.

(** The two dots [render_style2] draws at length [len] of the line at
    angle [a], the dots of that line for the lengths below [n], and the
    dots of spoke [s]: its radial line and its perpendicular. *)
Definition line_dot_pair (a : F32.float) (len : Z) : Canvas :=
  [(Z.quot W 2 - x_off a len, Z.quot H 2 + y_off a len);
   (Z.quot W 2 + x_off a len, Z.quot H 2 + y_off a len)].
Definition line_dots (a : F32.float) (n : Z) : Canvas :=
  flat_map (line_dot_pair a) (rev (zrange 0 n)).
Definition spoke_dots (frame spokes s : Z) : Canvas :=
  line_dots (perp_angle frame spokes s) (Z.quot H 2)
  ++ line_dots (spoke_angle frame spokes s) (Z.quot W 2).

End Program.

(** Whether the dot (x, y) is on the canvas. *)
Definition litb (c : Canvas) (x y : Z) : bool :=
  existsb (fun p => (fst p =? x) && (snd p =? y)) c.

(** A float that is neither an infinity nor a NaN. *)
Definition is_finite (x : F32.float) : bool :=
  match x with
  | S754_finite _ _ _ | S754_zero _ => true
  | _ => false
  end.

(** The clamp of the specification, on unbounded integers. *)
Definition clamp (v lo hi : Z) : Z := Z.max lo (Z.min hi v).

(** [d] is the integer nearest to the square root of [n], that is,
    d - 1/2 <= sqrt n < d + 1/2, with the squares taken. *)
Definition nearest_to_sqrt (n d : Z) : Prop :=
  0 <= d /\ 4 * n < (2 * d + 1) * (2 * d + 1)
  /\ (0 < d -> (2 * d - 1) * (2 * d - 1) <= 4 * n).

Definition nearest_to_sqrtb (n d : Z) : bool :=
  (0 <=? d) && (4 * n <? (2 * d + 1) * (2 * d + 1))
  && ((d <=? 0) || ((2 * d - 1) * (2 * d - 1) <=? 4 * n)).

(** ** A reference C library

    A concrete [math.h] and [stdlib.h] to run the generators on: [cosf],
    [sinf] and [atan2f] evaluate their power series in fixed point with 64
    fractional bits and round the result to binary32; [rand] is the
    generator the C standard gives as its example. *)

Module Ref.

Definition to_fix (x : F32.float) : Z :=
  match x with
  | S754_finite s m e =>
      let v := Z.shiftl (Zpos m) (e + 64) in if s then - v else v
  | _ => 0
  end.

Definition of_fix (z : Z) : F32.float :=
  binary_normalize F32.prec F32.emax z (-64) false.

Definition one : Z := 2 ^ 64.
Definition pi : Z := 57952155664616982739.

Definition fmul (a b : Z) : Z := Z.shiftr (a * b) 64.
Definition fdiv (a b : Z) : Z := Z.shiftl a 64 / b.

(** The representative of [x] modulo 2 pi in [-pi, pi). *)
Definition reduce (x : Z) : Z := (x + pi) mod (2 * pi) - pi.

(** [n] terms of the alternating series whose current term is [term] =
    x^k / k!. *)
Fixpoint trig_series (n : nat) (k term x2 : Z) : Z :=
  match n with
  | O => 0
  | S n' =>
      term + trig_series n' (k + 2) (- fmul term x2 / ((k + 1) * (k + 2))) x2
  end.

Definition sin_fix (x : Z) : Z :=
  let r := reduce x in trig_series 24 1 r (fmul r r).
Definition cos_fix (x : Z) : Z :=
  let r := reduce x in trig_series 24 0 one (fmul r r).

(** [n] terms of t - t^3/3 + t^5/5 - ..., [pow] the current odd power. *)
Fixpoint atan_series (n : nat) (k pow t2 : Z) : Z :=
  match n with
  | O => 0
  | S n' => pow / k + atan_series n' (k + 2) (- fmul pow t2) t2
  end.

(** atan t = 2 atan (t / (1 + sqrt (1 + t^2))). *)
Definition halve (t : Z) : Z :=
  fdiv t (one + Z.sqrt (Z.shiftl (one + fmul t t) 64)).

(** Arc tangent of [t] in [0, 1]. *)
Definition atan_fix (t : Z) : Z :=
  let u := halve (halve (halve t)) in
  8 * atan_series 16 1 u (fmul u u).

Definition atan2_fix (y x : Z) : Z :=
  let ax := Z.abs x in
  let ay := Z.abs y in
  let a :=
    if (ax =? 0) && (ay =? 0) then 0
    else if ay <=? ax then atan_fix (fdiv ay ax)
    else pi / 2 - atan_fix (fdiv ax ay) in
  let a := if x <? 0 then pi - a else a in
  if y <? 0 then - a else a.

Definition finite (x : F32.float) : bool :=
  match x with
  | S754_finite _ _ _ | S754_zero _ => true
  | _ => false
  end.

#[export] Instance libm : LibM := {|
  cosf x := if finite x then of_fix (cos_fix (to_fix x)) else S754_nan;
  sinf x := if finite x then of_fix (sin_fix (to_fix x)) else S754_nan;
  atan2f y x :=
    if finite y && finite x then of_fix (atan2_fix (to_fix y) (to_fix x))
    else S754_nan
|}.

(** [next = next * 1103515245 + 12345; return (next / 65536) % 32768;] on
    a 32-bit [next], and [srand(seed)] as [next = seed]. *)
#[export] Instance rnd : RandSource := {|
  Rng := Z;
  rand next :=
    let next' := u32 (next * 1103515245 + 12345) in
    (Z.rem (Z.quot next' 65536) 32768, next');
  srand seed _ := u32 seed
|}.

(** The program's state at start-up on this library, seeded at tick 0. *)
Definition world0 : World := initial 0 1.

End Ref.

(** ** Invariants of statements *)

Lemma InputType_eqb_eq (a b : InputType) : InputType_eqb a b = true <-> a = b.
Proof. destruct a, b; simpl; split; intro E; congruence. Qed.

Lemma zrange_In (lo hi i : Z) : In i (zrange lo hi) <-> lo <= i < hi.
Proof.
  unfold zrange. rewrite in_map_iff. split.
  - intros [n [E Hn]]. apply in_seq in Hn. lia.
  - intros Hi. exists (Z.to_nat (i - lo)). split; [lia|].
    apply in_seq. lia.
Qed.

Section Preservation.

Context {libm : LibM} {rnd : RandSource}.

Variable P : World -> Prop.

Lemma preserves_skip : preserves P skip.
Proof. intros w Hw. exact Hw. Qed.

Lemma preserves_seq (a b : Cmd) :
  preserves P a -> preserves P b -> preserves P (seq a b).
Proof. intros Ha Hb w Hw. apply Hb, Ha, Hw. Qed.

Lemma preserves_when (c : bool) (a : Cmd) :
  preserves P a -> preserves P (when c a).
Proof. destruct c; simpl; [trivial | intros _; apply preserves_skip]. Qed.

Lemma preserves_for_range (lo hi : Z) (body : Z -> Cmd) :
  (forall i, lo <= i < hi -> preserves P (body i)) ->
  preserves P (for_range lo hi body).
Proof.
  intros Hbody. unfold for_range.
  assert (G : forall l, (forall i, In i l -> lo <= i < hi) ->
              forall w, P w -> P (fold_left (fun w i => body i w) l w)).
  { induction l as [|i l IH]; simpl; intros Hl w Hw; [exact Hw|].
    apply IH; [intros j Hj; apply Hl; now right|].
    apply Hbody; [apply Hl; now left | exact Hw]. }
  intros w Hw. apply G; [|exact Hw].
  intros i Hi. now apply zrange_In.
Qed.

Lemma preserves_for_step (fuel : nat) (i hi step : Z) (body : Z -> Cmd) :
  (forall i, preserves P (body i)) ->
  preserves P (for_step fuel i hi step body).
Proof.
  intros Hbody. revert i.
  induction fuel as [|k IH]; simpl; intros i; [apply preserves_skip|].
  destruct (i <? hi); [|apply preserves_skip].
  apply preserves_seq; [apply Hbody | apply IH].
Qed.

Lemma preserves_with_rand (k : Z -> Cmd) :
  (forall r, preserves P (set_rng r)) ->
  (forall v, preserves P (k v)) ->
  preserves P (with_rand k).
Proof.
  intros Hr Hk w Hw. unfold with_rand.
  destruct (rand (rng w)) as [v r]. apply Hk, Hr, Hw.
Qed.

End Preservation.

(** A statement built from the combinators keeps [P] as soon as its leaves
    do; the leaves are closed by [leaf]. *)
Ltac preserves_with leaf :=
  cbv zeta;
  repeat
    (intros; cbv zeta;
     lazymatch goal with
     | |- preserves _ skip => apply preserves_skip
     | |- preserves _ (seq _ _) => apply preserves_seq
     | |- preserves _ (when _ _) => apply preserves_when
     | |- preserves _ (for_range _ _ _) => apply preserves_for_range
     | |- preserves _ (for_step _ _ _ _ _) => apply preserves_for_step
     | |- preserves _ (with_rand _) => apply preserves_with_rand
     | |- preserves _ (if ?c then _ else _) => destruct c
     | |- preserves _ _ => leaf
     end).

(** ** The globals and the generators *)

Section Globals.

Context {libm : LibM} {rnd : RandSource}.

Lemma keeps_globals_eq (c : Cmd) :
  keeps_globals c -> forall w, globals (c w) = globals w.
Proof. intros Hc w. now apply (Hc (globals w)). Qed.

Lemma keeps_reading (body : World -> Cmd) :
  (forall w0, keeps_globals (body w0)) ->
  keeps_globals (reading body).
Proof. intros Hb g w Hw. now apply Hb. Qed.

(** Writes to the random source and to the canvas leave the globals. *)
Ltac keeps_leaf := solve [intros w Hw; exact Hw].

Lemma keeps_render_style0 : keeps_globals render_style0.
Proof.
  apply keeps_reading; intros w0 g.
  preserves_with keeps_leaf.
Qed.

Lemma keeps_render_style1 : keeps_globals render_style1.
Proof.
  apply keeps_reading; intros w0 g.
  preserves_with keeps_leaf.
Qed.

Lemma keeps_render_style2 : keeps_globals render_style2.
Proof.
  apply keeps_reading; intros w0 g.
  preserves_with keeps_leaf.
Qed.

Lemma keeps_render_style3 (tick : Z) : keeps_globals (render_style3 tick).
Proof.
  apply keeps_reading; intros w0 g.
  preserves_with keeps_leaf.
Qed.

Lemma keeps_render_style4 : keeps_globals render_style4.
Proof.
  apply keeps_reading; intros w0 g.
  preserves_with keeps_leaf.
Qed.

Lemma keeps_render_style5 : keeps_globals render_style5.
Proof.
  apply keeps_reading; intros w0 g.
  preserves_with keeps_leaf.
Qed.

Lemma keeps_render_style6 : keeps_globals render_style6.
Proof.
  apply keeps_reading; intros w0 g.
  preserves_with keeps_leaf.
Qed.

End Globals.

(** ** The input state machine *)

Section InputStateMachine.

Context {libm : LibM} {rnd : RandSource}.

Lemma u8_small (z : Z) : 0 <= z < 256 -> u8 z = z.
Proof. intros Hz. unfold u8. apply Z.mod_small. lia. Qed.

Lemma clamp_u8_clamp (v lo hi : Z) :
  lo <= hi -> clamp_u8 v lo hi = clamp v lo hi.
Proof.
  intros Hlh. unfold clamp_u8, clamp.
  destruct (Z.ltb_spec v lo); [lia|].
  destruct (v >? hi) eqn:E; [apply Z.gtb_lt in E; lia|].
  assert (~ v > hi) by (rewrite Z.gtb_ltb in E; apply Z.ltb_ge in E; lia).
  lia.
Qed.

Lemma input_callback_valid (event : InputEvent) (w : World) :
  valid w -> valid (fst (input_callback event w)).
Proof.
  unfold valid, input_callback. intros [Hs Hd].
  destruct (negb (InputType_eqb (type event) InputTypeShort));
    [simpl; lia|].
  destruct (key event); simpl; try lia; split; try lia.
  - rewrite clamp_u8_clamp by lia. unfold clamp. lia.
  - destruct (Z.ltb_spec (dot_threshold w) 10); [lia|].
    rewrite u8_small; lia.
  - destruct (Z.eqb_spec (style w) 6); [lia|]. rewrite u8_small; lia.
  - destruct (Z.eqb_spec (style w) 0); [lia|]. rewrite u8_small; lia.
Qed.

(** Membership in [generators tick] by position. *)
Tactic Notation "listed" integer(n) :=
  unfold generators; do n right; left; reflexivity.

(** The dispatcher runs one generator on the state with [frame]
    incremented. *)
Lemma render_pattern_generator (tick : Z) (w : World) :
  exists gen, In gen (generators tick)
              /\ render_pattern tick w = gen (incr_frame w).
Proof.
  unfold render_pattern, seq.
  destruct (_ =? 0); [exists render_style2; split; [listed 2|reflexivity]|].
  destruct (_ =? 1); [exists render_style1; split; [listed 1|reflexivity]|].
  destruct (_ =? 2); [exists (render_style3 tick); split; [listed 3|reflexivity]|].
  destruct (_ =? 3); [exists render_style0; split; [listed 0|reflexivity]|].
  destruct (_ =? 4); [exists render_style4; split; [listed 4|reflexivity]|].
  destruct (_ =? 5); [exists render_style5; split; [listed 5|reflexivity]|].
  destruct (_ =? 6); [exists render_style6; split; [listed 6|reflexivity]|].
  exists render_style0; split; [listed 0|reflexivity].
Qed.

Lemma generators_keep (tick : Z) (gen : Cmd) :
  In gen (generators tick) -> keeps_globals gen.
Proof.
  unfold generators. simpl.
  intros [E|[E|[E|[E|[E|[E|[E|[]]]]]]]]; subst gen.
  - apply keeps_render_style0.
  - apply keeps_render_style1.
  - apply keeps_render_style2.
  - apply keeps_render_style3.
  - apply keeps_render_style4.
  - apply keeps_render_style5.
  - apply keeps_render_style6.
Qed.

Lemma render_pattern_globals (tick : Z) (w : World) :
  globals (render_pattern tick w)
  = (app_running w, dot_threshold w, style w, u32 (frame w + 1)).
Proof.
  destruct (render_pattern_generator tick w) as [gen [Hin ->]].
  rewrite (keeps_globals_eq gen (generators_keep tick gen Hin)).
  reflexivity.
Qed.

Lemma render_pattern_valid (tick : Z) (w : World) :
  valid w -> valid (render_pattern tick w).
Proof.
  unfold valid. intros Hw.
  pose proof (render_pattern_globals tick w) as G.
  unfold globals in G. injection G as _ Hd Hs _.
  rewrite Hd, Hs. exact Hw.
Qed.

Lemma step_valid (w : World) (a : Action) : valid w -> valid (step w a).
Proof.
  destruct a as [event|tick]; simpl.
  - apply input_callback_valid.
  - apply render_pattern_valid.
Qed.

(** C1: in every state reached from the initial one by input events and
    render calls, [style] is in [0,6] and [dot_threshold] in [0,100]. *)
Theorem state_invariant (acts : list Action) (tick : Z) (r0 : Rng) :
  let w := run acts (initial tick r0) in
  0 <= style w <= 6 /\ 0 <= dot_threshold w <= 100.
Proof.
  simpl. unfold run.
  assert (G : forall w, valid w -> valid (fold_left step acts w)).
  { induction acts as [|a acts IH]; simpl; intros w Hw; [exact Hw|].
    apply IH, step_valid, Hw. }
  apply G. unfold valid, initial. simpl. lia.
Qed.

(** C2: on a style in [0,6], a short press of Left gives 6 from 0 and
    style-1 otherwise, a short press of Right gives 0 from 6 and style+1
    otherwise; so Right from 6 lands on 0 and Left from 0 on 6. *)
Theorem style_transitions (w : World) :
  0 <= style w <= 6 ->
  style (fst (input_callback (short InputKeyLeft) w))
    = (if style w =? 0 then 6 else style w - 1)
  /\ style (fst (input_callback (short InputKeyRight) w))
    = (if style w =? 6 then 0 else style w + 1)
  /\ (style w = 6 ->
      style (fst (input_callback (short InputKeyRight) w)) = 0)
  /\ (style w = 0 ->
      style (fst (input_callback (short InputKeyLeft) w)) = 6).
Proof.
  intros Hs. simpl.
  destruct (Z.eqb_spec (style w) 0), (Z.eqb_spec (style w) 6);
    repeat split; try rewrite u8_small; lia.
Qed.

(** C3: on a density in [0,100], a short press of Up gives
    clamp(density+10, 0, 100) and a short press of Down gives 0 below 10
    and density-10 otherwise; Up from 100 stays 100, Down from 0 stays 0. *)
Theorem density_transitions (w : World) :
  0 <= dot_threshold w <= 100 ->
  dot_threshold (fst (input_callback (short InputKeyUp) w))
    = clamp (dot_threshold w + 10) 0 100
  /\ dot_threshold (fst (input_callback (short InputKeyDown) w))
    = (if dot_threshold w <? 10 then 0 else dot_threshold w - 10)
  /\ (dot_threshold w = 100 ->
      dot_threshold (fst (input_callback (short InputKeyUp) w)) = 100)
  /\ (dot_threshold w = 0 ->
      dot_threshold (fst (input_callback (short InputKeyDown) w)) = 0).
Proof.
  intros Hd. simpl.
  rewrite (u8_small (dot_threshold w + 10)) by lia.
  rewrite clamp_u8_clamp by lia. unfold clamp.
  destruct (Z.ltb_spec (dot_threshold w) 10);
    repeat split; try rewrite u8_small; lia.
Qed.

(** C10: an event that is not a short press, whatever its key, leaves the
    whole state (style, density, running flag) as it is and requests no
    redraw. *)
Theorem non_short_press_ignored (event : InputEvent) (w : World) :
  type event <> InputTypeShort ->
  input_callback event w = (w, false).
Proof.
  intros Ht. unfold input_callback.
  destruct (InputType_eqb (type event) InputTypeShort) eqn:E;
    [apply InputType_eqb_eq in E; contradiction | reflexivity].
Qed.

End InputStateMachine.

(** ** The dispatcher *)

Section Dispatcher.

Context {libm : LibM} {rnd : RandSource}.

Lemma u32_range (a : Z) : 0 <= u32 a < 2 ^ 32.
Proof. unfold u32. apply Z.mod_pos_bound. reflexivity. Qed.

Lemma renders_frame (ticks : list Z) (w : World) :
  0 <= frame w < 2 ^ 32 ->
  frame (renders ticks w) = u32 (frame w + Z.of_nat (length ticks)).
Proof.
  unfold renders. revert w.
  induction ticks as [|t ticks IH]; intros w Hw.
  - simpl. rewrite Z.add_0_r. unfold u32.
    symmetry. now apply Z.mod_small.
  - cbn [fold_left length].
    pose proof (render_pattern_globals t w) as G.
    unfold globals in G. injection G as _ _ _ Hf.
    rewrite IH by (rewrite Hf; apply u32_range).
    rewrite Hf. unfold u32.
    rewrite Nat2Z.inj_succ.
    rewrite Z.add_mod_idemp_l by (intro E; discriminate E).
    f_equal. lia.
Qed.

Lemma input_callback_frame (event : InputEvent) (w : World) :
  frame (fst (input_callback event w)) = frame w.
Proof.
  unfold input_callback.
  destruct (negb (InputType_eqb (type event) InputTypeShort));
    [reflexivity|].
  destruct (key event); reflexivity.
Qed.

Lemma run_frame (acts : list Action) (w : World) :
  0 <= frame w < 2 ^ 32 ->
  frame (run acts w) = u32 (frame w + draws acts).
Proof.
  unfold run, draws. revert w.
  induction acts as [|a acts IH]; intros w Hw.
  - cbn [fold_left filter length]. rewrite Z.add_0_r. unfold u32.
    symmetry. now apply Z.mod_small.
  - cbn [fold_left filter]. destruct a as [event|tick]; cbn [is_draw step].
    + rewrite IH by (rewrite input_callback_frame; exact Hw).
      now rewrite input_callback_frame.
    + pose proof (render_pattern_globals tick w) as G.
      unfold globals in G. injection G as _ _ _ Hf.
      unfold view_callback.
      rewrite IH by (rewrite Hf; apply u32_range).
      rewrite Hf. unfold u32. cbn [length]. rewrite Nat2Z.inj_succ.
      rewrite Z.add_mod_idemp_l by (intro E; discriminate E).
      f_equal. lia.
Qed.

(** C4: every dispatcher call adds exactly 1 to [frame] (modulo 2^32),
    whatever the style, and the generator it invokes already runs on the
    incremented counter; after N calls from [frame] = 0 the counter is
    N modulo 2^32, also when input events come in between. *)
Theorem frame_counter :
  (forall tick w, frame (render_pattern tick w) = (frame w + 1) mod 2 ^ 32)
  /\ (forall tick w, exists gen,
        In gen (generators tick)
        /\ render_pattern tick w = gen (set_frame ((frame w + 1) mod 2 ^ 32) w))
  /\ (forall ticks w,
        frame (renders ticks (set_frame 0 w))
        = Z.of_nat (length ticks) mod 2 ^ 32)
  /\ (forall acts tick r0,
        frame (run acts (initial tick r0)) = draws acts mod 2 ^ 32).
Proof.
  split; [|split; [|split]].
  - intros tick w. pose proof (render_pattern_globals tick w) as G.
    unfold globals in G. injection G as _ _ _ Hf. exact Hf.
  - intros tick w. apply render_pattern_generator.
  - intros ticks w. rewrite renders_frame; [reflexivity|].
    simpl. split; [lia | reflexivity].
  - intros acts tick r0. rewrite run_frame; [reflexivity|].
    simpl. split; [lia | reflexivity].
Qed.

(** C6: the dispatcher maps style 0 to the rotating star, 1 to the
    concentric arcs, 2 to the quadrant noise, 3 to the mirrored dots, 4 to
    the spiral swirl, 5 to the checkerboard wave and 6 to the sunburst;
    the first pattern shown after start-up is the rotating star. *)
Theorem dispatch_table (tick : Z) (w : World) :
  render_pattern tick (set_style 0 w) = render_style2 (incr_frame (set_style 0 w))
  /\ render_pattern tick (set_style 1 w) = render_style1 (incr_frame (set_style 1 w))
  /\ render_pattern tick (set_style 2 w) = render_style3 tick (incr_frame (set_style 2 w))
  /\ render_pattern tick (set_style 3 w) = render_style0 (incr_frame (set_style 3 w))
  /\ render_pattern tick (set_style 4 w) = render_style4 (incr_frame (set_style 4 w))
  /\ render_pattern tick (set_style 5 w) = render_style5 (incr_frame (set_style 5 w))
  /\ render_pattern tick (set_style 6 w) = render_style6 (incr_frame (set_style 6 w))
  /\ (forall t0 r0,
        render_pattern tick (initial t0 r0)
        = render_style2 (incr_frame (initial t0 r0))).
Proof.
  unfold render_pattern, seq.
  split; [reflexivity|]. split; [reflexivity|]. split; [reflexivity|].
  split; [reflexivity|]. split; [reflexivity|]. split; [reflexivity|].
  split; [reflexivity|]. intros t0 r0. reflexivity.
Qed.

End Dispatcher.

(** ** The mirrored-dots generator *)

Section MirroredDots.

Context {libm : LibM} {rnd : RandSource}.

Lemma paired_set_rng (r : Rng) : preserves paired (set_rng r).
Proof. intros w Hw. exact Hw. Qed.

Lemma paired_draw_pair (x y : Z) :
  0 <= x < Z.quot W 2 -> 0 <= y < H ->
  preserves paired
    (seq (canvas_draw_dot x y) (canvas_draw_dot (W - 1 - x) y)).
Proof.
  change (Z.quot W 2) with 64. change H with 64.
  intros Hx Hy w [Hm Hb]. unfold seq, canvas_draw_dot, paired.
  cbn [canvas set_canvas]. split.
  - intros p [E|[E|Hp]].
    + subst p. right. left. unfold mirror_columns. cbn [fst snd].
      f_equal. lia.
    + subst p. left. reflexivity.
    + right. right. apply Hm, Hp.
  - intros a b [E|[E|Hp]].
    + assert (a = W - 1 - x /\ b = y) as [-> ->] by (split; congruence).
      unfold W, H. lia.
    + assert (a = x /\ b = y) as [-> ->] by (split; congruence).
      unfold W, H. lia.
    + apply Hb, Hp.
Qed.

Lemma render_style0_paired (w : World) : paired (render_style0 w).
Proof.
  unfold render_style0, reading, seq.
  apply (preserves_for_range paired).
  - intros x Hx.
    apply preserves_for_range; intros y Hy.
    apply preserves_with_rand; [apply paired_set_rng|]; intros v.
    apply preserves_when, paired_draw_pair; assumption.
  - unfold paired, canvas_clear. cbn [canvas set_canvas].
    split; [intros p []|intros a b []].
Qed.

(** C8: after any call of the mirrored-dots generator, whatever the state
    of the random source and the density, pixel (x, y) of the left half is
    lit if and only if pixel (W-1-x, y) is. *)
Theorem mirrored_dots_symmetry (w : World) (x y : Z) :
  0 <= x < W / 2 -> 0 <= y < H ->
  is_lit (render_style0 w) x y <-> is_lit (render_style0 w) (W - 1 - x) y.
Proof.
  intros _ _. destruct (render_style0_paired w) as [Hm _].
  unfold is_lit. split; intros Hp.
  - apply (Hm (x, y)), Hp.
  - apply Hm in Hp. unfold mirror_columns in Hp. cbn [fst snd] in Hp.
    replace (W - 1 - (W - 1 - x)) with x in Hp by lia. exact Hp.
Qed.

(** C7: on a style outside [0,6] the dispatcher runs the mirrored-dots
    generator on the incremented frame counter; the call ends in a state
    whose running flag, density and style are unchanged, and every dot it
    drew lies on the W x H grid. *)
Theorem out_of_range_style_fallback (tick : Z) (w : World) :
  ~ (0 <= style w <= 6) ->
  render_pattern tick w = render_style0 (incr_frame w)
  /\ app_running (render_pattern tick w) = app_running w
  /\ dot_threshold (render_pattern tick w) = dot_threshold w
  /\ style (render_pattern tick w) = style w
  /\ frame (render_pattern tick w) = (frame w + 1) mod 2 ^ 32
  /\ in_bounds (canvas (render_pattern tick w)).
Proof.
  intros Hs.
  assert (E : render_pattern tick w = render_style0 (incr_frame w)).
  { unfold render_pattern, seq.
    change (style (incr_frame w)) with (style w).
    destruct (Z.eqb_spec (style w) 0); [lia|].
    destruct (Z.eqb_spec (style w) 1); [lia|].
    destruct (Z.eqb_spec (style w) 2); [lia|].
    destruct (Z.eqb_spec (style w) 3); [lia|].
    destruct (Z.eqb_spec (style w) 4); [lia|].
    destruct (Z.eqb_spec (style w) 5); [lia|].
    destruct (Z.eqb_spec (style w) 6); [lia|].
    reflexivity. }
  pose proof (render_pattern_globals tick w) as G.
  unfold globals in G. injection G as Ha Hd Hst Hf.
  repeat (split; [assumption|]).
  rewrite E. apply render_style0_paired.
Qed.

End MirroredDots.

(** ** Statements that only draw *)

Section Painting.

Context {libm : LibM} {rnd : RandSource}.

Lemma paints_skip : paints skip [].
Proof. intros w. destruct w; reflexivity. Qed.

Lemma paints_draw_dot (x y : Z) : paints (canvas_draw_dot x y) [(x, y)].
Proof. intros w. reflexivity. Qed.

Lemma paints_seq (a b : Cmd) (la lb : Canvas) :
  paints a la -> paints b lb -> paints (seq a b) (lb ++ la).
Proof.
  intros Ha Hb w. unfold seq. rewrite Hb, Ha.
  unfold set_canvas. cbn [canvas app_running dot_threshold style frame rng].
  now rewrite app_assoc.
Qed.

Lemma paints_fold (body : Z -> Cmd) (f : Z -> Canvas) (l : list Z) :
  (forall i, In i l -> paints (body i) (f i)) ->
  paints (fun w => fold_left (fun w i => body i w) l w)
         (flat_map f (rev l)).
Proof.
  induction l as [|i l IH] using rev_ind; intros Hbody w.
  - destruct w; reflexivity.
  - rewrite fold_left_app, rev_app_distr. cbn [fold_left rev app flat_map].
    rewrite (Hbody i) by (apply in_or_app; right; now left).
    rewrite IH by (intros j Hj; apply Hbody, in_or_app; now left).
    unfold set_canvas.
    cbn [canvas app_running dot_threshold style frame rng].
    now rewrite app_assoc.
Qed.

Lemma paints_for_range (lo hi : Z) (body : Z -> Cmd) (f : Z -> Canvas) :
  (forall i, lo <= i < hi -> paints (body i) (f i)) ->
  paints (for_range lo hi body) (flat_map f (rev (zrange lo hi))).
Proof.
  intros Hbody. apply paints_fold.
  intros i Hi. now apply Hbody, zrange_In.
Qed.

Lemma paints_for_step (fuel : nat) (i hi step : Z)
      (body : Z -> Cmd) (f : Z -> Canvas) :
  (forall i, paints (body i) (f i)) ->
  paints (for_step fuel i hi step body)
         (flat_map f (rev (steps fuel i hi step))).
Proof.
  intros Hbody. revert i.
  induction fuel as [|k IH]; intros i; cbn [for_step steps].
  - apply paints_skip.
  - destruct (i <? hi); [|apply paints_skip].
    cbn [rev]. rewrite flat_map_app. cbn [flat_map].
    rewrite app_nil_r.
    apply paints_seq; [apply Hbody | apply IH].
Qed.

Lemma in_flat_map_rev (f : Z -> Canvas) (l : list Z) (p : Z * Z) :
  In p (flat_map f (rev l)) <-> exists i, In i l /\ In p (f i).
Proof.
  rewrite in_flat_map. split; intros [i [Hi Hp]]; exists i; split;
    try assumption.
  - exact (proj2 (in_rev l i) Hi).
  - exact (proj1 (in_rev l i) Hi).
Qed.

(** With enough fuel the index of [for_step] runs through
    i, i + step, i + 2 step, ... below [hi]. *)
Lemma steps_In (fuel : nat) (i hi step r : Z) :
  0 < step -> hi - i <= Z.of_nat fuel ->
  In r (steps fuel i hi step)
  <-> exists k, 0 <= k /\ r = i + k * step /\ r < hi.
Proof.
  intros Hstep. revert i.
  induction fuel as [|n IH]; intros i Hfuel; cbn [steps].
  - split; [intros []|]. intros [k [Hk [Hr Hlt]]]. nia.
  - destruct (Z.ltb_spec i hi) as [Hi|Hi].
    + cbn [In]. rewrite IH by lia. split.
      * intros [E|[k [Hk [Hr Hlt]]]].
        -- exists 0. lia.
        -- exists (k + 1). lia.
      * intros [k [Hk [Hr Hlt]]].
        assert (k = 0 \/ 1 <= k) as [->|Hk1] by lia; [left; lia|].
        right. exists (k - 1). lia.
    + split; [intros []|]. intros [k [Hk [Hr Hlt]]]. nia.
Qed.

End Painting.

(** ** The concentric-arcs generator *)

Section ConcentricArcs.

Context {libm : LibM} {rnd : RandSource}.

Lemma nearest_to_sqrtb_spec (n d : Z) :
  nearest_to_sqrtb n d = true <-> nearest_to_sqrt n d.
Proof.
  unfold nearest_to_sqrtb, nearest_to_sqrt.
  rewrite !andb_true_iff, orb_true_iff.
  rewrite Z.leb_le, Z.ltb_lt, Z.leb_le, Z.leb_le. lia.
Qed.

Lemma nearest_to_sqrt_unique (n d1 d2 : Z) :
  nearest_to_sqrt n d1 -> nearest_to_sqrt n d2 -> d1 = d2.
Proof.
  unfold nearest_to_sqrt. intros [H1 [H2 H3]] [H4 [H5 H6]].
  destruct (Z.lt_trichotomy d1 d2) as [L|[E|L]]; [|exact E|].
  - assert (0 < d2) as P by lia. specialize (H6 P). nia.
  - assert (0 < d1) as P by lia. specialize (H3 P). nia.
Qed.

(** The half-chord of the code, [(int)(sqrtf((float)inside) + 0.5f)], is
    the integer nearest to the square root, for every [inside] a ring of
    radius below H/2 can give. *)
Lemma half_chord_nearest (n : Z) :
  0 <= n <= 961 -> nearest_to_sqrt n (half_chord n).
Proof.
  intros Hn. apply nearest_to_sqrtb_spec.
  assert (G : forallb (fun n => nearest_to_sqrtb n (half_chord n))
                      (zrange 0 962) = true) by (vm_compute; reflexivity).
  rewrite forallb_forall in G. apply G, zrange_In. lia.
Qed.

Lemma paints_chord (r dy : Z) :
  paints
    (let inside := r * r - dy * dy in
     if inside <? 0 then skip
     else
       let xf := F32.sqrtf (F32.of_int inside) in
       let dx := F32.to_int (xf + F32.lit 5 10)%f32 in
       seq (canvas_draw_dot (Z.quot W 2 - dx) (Z.quot H 2 + dy))
           (canvas_draw_dot (Z.quot W 2 + dx) (Z.quot H 2 + dy)))
    (chord_dots r dy).
Proof.
  unfold chord_dots. cbv zeta.
  destruct (r * r - dy * dy <? 0); [apply paints_skip|].
  apply (paints_seq _ _ [_] [_]); apply paints_draw_dot.
Qed.

Lemma render_style1_canvas (w : World) :
  canvas (render_style1 w)
  = flat_map ring_dots
      (rev (steps (Z.to_nat (Z.quot H 2))
                  (Z.rem (frame w)
                     (clamp_u8 (u8 (Z.quot (dot_threshold w) 10 + 2)) 2 10))
                  (Z.quot H 2)
                  (clamp_u8 (u8 (Z.quot (dot_threshold w) 10 + 2)) 2 10))).
Proof.
  unfold render_style1, reading. cbv zeta. unfold seq.
  rewrite (paints_for_step _ _ _ _ _ ring_dots).
  - unfold canvas_clear. cbn [canvas set_canvas]. apply app_nil_r.
  - intros r. apply paints_for_range. intros dy _. apply paints_chord.
Qed.

Lemma step_of_density (d : Z) :
  0 <= d < 256 ->
  clamp_u8 (u8 (Z.quot d 10 + 2)) 2 10 = clamp (d / 10 + 2) 2 10.
Proof.
  intros Hd. rewrite Z.quot_div_nonneg by lia.
  assert (0 <= d / 10 <= 25) by (Z.div_mod_to_equations; lia).
  rewrite u8_small by lia. apply clamp_u8_clamp. lia.
Qed.

(** C9: the ring spacing is step = clamp(density/10 + 2, 2, 10), which is
    7 at density 50; the first radius is frame mod step; and the dots
    plotted are exactly (cx - dx, cy + dy) and (cx + dx, cy + dy) for the
    radii r = offset, offset + step, ... below H/2 and dy in [-r, r], with
    dx the integer nearest to sqrt(r^2 - dy^2). *)
Theorem concentric_arcs (w : World) :
  0 <= dot_threshold w < 256 -> 0 <= frame w < 2 ^ 32 ->
  let step := clamp (dot_threshold w / 10 + 2) 2 10 in
  let offset := frame w mod step in
  (dot_threshold w = 50 -> step = 7)
  /\ forall x y,
       is_lit (render_style1 w) x y <->
       exists k dy dx,
         let r := offset + k * step in
         0 <= k /\ r < H / 2 /\ - r <= dy <= r
         /\ nearest_to_sqrt (r * r - dy * dy) dx
         /\ y = H / 2 + dy /\ (x = W / 2 - dx \/ x = W / 2 + dx).
Proof.
  intros Hd Hf step offset. split.
  { intros E. subst step. rewrite E. reflexivity. }
  assert (Hstep : 2 <= step <= 10) by (subst step; unfold clamp; lia).
  change (2 ^ 32) with 4294967296 in Hf.
  assert (Hoff : 0 <= offset < step)
    by (subst offset; apply Z.mod_pos_bound; lia).
  intros x y. unfold is_lit. rewrite render_style1_canvas.
  rewrite step_of_density by exact Hd. fold step.
  rewrite Z.rem_mod_nonneg by lia. fold offset.
  change (Z.quot H 2) with 32. change (H / 2) with 32.
  change (W / 2) with 64.
  rewrite in_flat_map_rev. split.
  - intros [r [Hr Hp]].
    apply steps_In in Hr; [|lia|change (Z.of_nat (Z.to_nat 32)) with 32; lia].
    destruct Hr as [k [Hk [Er Hlt]]].
    unfold ring_dots in Hp. apply in_flat_map_rev in Hp.
    destruct Hp as [dy [Hdy Hp]]. apply zrange_In in Hdy.
    unfold chord_dots in Hp. cbv zeta in Hp.
    change (Z.quot W 2) with 64 in Hp. change (Z.quot H 2) with 32 in Hp.
    assert (Hin : 0 <= r * r - dy * dy <= 961) by nia.
    destruct (Z.ltb_spec (r * r - dy * dy) 0) as [Hneg|_]; [lia|].
    exists k, dy, (half_chord (r * r - dy * dy)). cbv zeta.
    rewrite <- Er.
    repeat split; try lia; try (apply half_chord_nearest; exact Hin).
    + destruct Hp as [E|[E|[]]]; congruence.
    + destruct Hp as [E|[E|[]]]; [right|left]; congruence.
  - intros [k [dy [dx Hx]]]. cbv zeta in Hx.
    destruct Hx as [Hk [Hlt [Hdy [Hn [Ey Ex]]]]].
    set (r := offset + k * step) in *.
    assert (Hr0 : 0 <= r) by (subst r; nia).
    exists r. split.
    + apply steps_In; [lia|change (Z.of_nat (Z.to_nat 32)) with 32; lia|].
      exists k. repeat split; try lia.
    + unfold ring_dots. apply in_flat_map_rev. exists dy. split.
      * apply zrange_In. lia.
      * assert (Hin : 0 <= r * r - dy * dy <= 961) by nia.
        rewrite (nearest_to_sqrt_unique _ _ _ Hn (half_chord_nearest _ Hin)) in Ex.
        unfold chord_dots. cbv zeta.
        change (Z.quot W 2) with 64. change (Z.quot H 2) with 32.
        destruct (Z.ltb_spec (r * r - dy * dy) 0) as [Hneg|_]; [lia|].
        subst y. destruct Ex as [->| ->]; [right; left|left]; reflexivity.
Qed.

End ConcentricArcs.

(** ** The rotating-star generator *)

Section RotatingStar.

Context {libm : LibM} {rnd : RandSource}.

Lemma paints_line (a : F32.float) (n : Z) :
  paints
    (for_range 0 n (fun len =>
       let x_off := F32.to_int (cosf a * F32.of_int len)%f32 in
       let y_off := F32.to_int (sinf a * F32.of_int len)%f32 in
       seq (canvas_draw_dot (Z.quot W 2 + x_off) (Z.quot H 2 + y_off))
           (canvas_draw_dot (Z.quot W 2 - x_off) (Z.quot H 2 + y_off))))
    (line_dots a n).
Proof.
  apply paints_for_range. intros len _. cbv zeta.
  apply (paints_seq _ _ [_] [_]); apply paints_draw_dot.
Qed.

Lemma render_style2_canvas (w : World) :
  canvas (render_style2 w)
  = flat_map
      (spoke_dots (frame w)
         (clamp_u8 (u8 (Z.quot (dot_threshold w) 10 + 2)) 2 16))
      (rev (zrange 0 (clamp_u8 (u8 (Z.quot (dot_threshold w) 10 + 2)) 2 16))).
Proof.
  unfold render_style2, reading. cbv zeta. unfold seq at 1.
  rewrite (paints_for_range _ _ _
             (spoke_dots (frame w)
                (clamp_u8 (u8 (Z.quot (dot_threshold w) 10 + 2)) 2 16))).
  - unfold canvas_clear. cbn [canvas set_canvas]. apply app_nil_r.
  - intros s _. unfold spoke_dots.
    apply paints_seq; apply paints_line.
Qed.

Lemma line_dots_In (a : F32.float) (n x y : Z) :
  In (x, y) (line_dots a n)
  <-> exists len, 0 <= len < n /\ y = Z.quot H 2 + y_off a len
                  /\ (x = Z.quot W 2 + x_off a len
                      \/ x = Z.quot W 2 - x_off a len).
Proof.
  unfold line_dots. rewrite in_flat_map_rev. unfold line_dot_pair.
  split.
  - intros [len [Hlen Hp]]. apply zrange_In in Hlen. exists len.
    destruct Hp as [E|[E|[]]];
      assert (x = fst (x, y) /\ y = snd (x, y)) as [Ex Ey] by (split; reflexivity);
      rewrite <- E in Ex, Ey; cbn [fst snd] in Ex, Ey; tauto.
  - intros [len [Hlen [Ey [Ex|Ex]]]]; exists len;
      (split; [apply zrange_In; exact Hlen|]); subst x y.
    + right. left. reflexivity.
    + left. reflexivity.
Qed.

Lemma spokes_of_density (d : Z) :
  0 <= d < 256 ->
  clamp_u8 (u8 (Z.quot d 10 + 2)) 2 16 = clamp (d / 10 + 2) 2 16.
Proof.
  intros Hd. rewrite Z.quot_div_nonneg by lia.
  assert (0 <= d / 10 <= 25) by (Z.div_mod_to_equations; lia).
  rewrite u8_small by lia. apply clamp_u8_clamp. lia.
Qed.

(** C5, as amended: with spokes = clamp(density/10 + 2, 2, 16) and the
    angle of spoke s computed in single precision as
    frame * 0.05f + s * (3.14159f / spokes), the dots plotted are exactly
    (cx + xo, cy + yo) and (cx - xo, cy + yo) where xo = (int)(cosf(a) * len)
    and yo = (int)(sinf(a) * len), truncated toward zero, for the lengths
    0 .. W/2 - 1 on the spoke's angle a and 0 .. H/2 - 1 on the
    perpendicular a + 3.14159f / 2; so every plotted dot has its mirror
    image in the vertical line through the centre plotted too. *)
Theorem rotating_star (w : World) :
  0 <= dot_threshold w < 256 ->
  let spokes := clamp (dot_threshold w / 10 + 2) 2 16 in
  (forall x y,
     is_lit (render_style2 w) x y <->
     exists s len a,
       0 <= s < spokes
       /\ (a = spoke_angle (frame w) spokes s /\ 0 <= len < W / 2
           \/ a = perp_angle (frame w) spokes s /\ 0 <= len < H / 2)
       /\ y = H / 2 + y_off a len
       /\ (x = W / 2 + x_off a len \/ x = W / 2 - x_off a len))
  /\ closed_under mirror_centre (canvas (render_style2 w)).
Proof.
  intros Hd spokes.
  assert (Hchar : forall x y,
     is_lit (render_style2 w) x y <->
     exists s len a,
       0 <= s < spokes
       /\ (a = spoke_angle (frame w) spokes s /\ 0 <= len < W / 2
           \/ a = perp_angle (frame w) spokes s /\ 0 <= len < H / 2)
       /\ y = H / 2 + y_off a len
       /\ (x = W / 2 + x_off a len \/ x = W / 2 - x_off a len)).
  { intros x y. unfold is_lit. rewrite render_style2_canvas.
    rewrite spokes_of_density by exact Hd. fold spokes.
    rewrite in_flat_map_rev.
    change (W / 2) with (Z.quot W 2). change (H / 2) with (Z.quot H 2).
    split.
    - intros [s [Hs Hp]]. apply zrange_In in Hs.
      unfold spoke_dots in Hp. apply in_app_or in Hp.
      destruct Hp as [Hp|Hp]; apply line_dots_In in Hp;
        destruct Hp as [len [Hlen [Ey Ex]]].
      + exists s, len, (perp_angle (frame w) spokes s). tauto.
      + exists s, len, (spoke_angle (frame w) spokes s). tauto.
    - intros [s [len [a [Hs [[[-> Hlen]|[-> Hlen]] [Ey Ex]]]]]];
        exists s; (split; [apply zrange_In; exact Hs|]);
        unfold spoke_dots; apply in_or_app; [right|left];
        apply line_dots_In; exists len; tauto. }
  split; [exact Hchar|].
  intros [x y] Hp. apply Hchar in Hp. unfold mirror_centre. cbn [fst snd].
  apply Hchar.
  destruct Hp as [s [len [a [Hs [Ha [Ey Ex]]]]]]. exists s, len, a.
  repeat (split; [assumption|]).
  change (W / 2) with 64 in *. unfold W. lia.
Qed.

End RotatingStar.

(** ** More on the input handler *)

Section InputHandler.

Context {libm : LibM} {rnd : RandSource}.

Lemma presses_succ (k : InputKey) (n : nat) (w : World) :
  presses k (S n) w = fst (input_callback (short k) (presses k n w)).
Proof. reflexivity. Qed.

Lemma press_right_style (w : World) :
  0 <= style w <= 6 ->
  style (fst (input_callback (short InputKeyRight) w)) = (style w + 1) mod 7.
Proof.
  intros Hs. cbn.
  destruct (Z.eqb_spec (style w) 6) as [->|Hn]; [reflexivity|].
  rewrite u8_small by lia. rewrite Z.mod_small; lia.
Qed.

Lemma press_left_style (w : World) :
  0 <= style w <= 6 ->
  style (fst (input_callback (short InputKeyLeft) w)) = (style w - 1) mod 7.
Proof.
  intros Hs. cbn.
  destruct (Z.eqb_spec (style w) 0) as [->|Hn]; [reflexivity|].
  rewrite u8_small by lia. rewrite Z.mod_small; lia.
Qed.

Lemma press_up_density (w : World) :
  0 <= dot_threshold w <= 100 ->
  dot_threshold (fst (input_callback (short InputKeyUp) w))
  = Z.min 100 (dot_threshold w + 10).
Proof.
  intros Hd. cbn.
  rewrite (u8_small (dot_threshold w + 10)) by lia.
  rewrite clamp_u8_clamp by lia. unfold clamp. lia.
Qed.

Lemma press_down_density (w : World) :
  0 <= dot_threshold w <= 100 ->
  dot_threshold (fst (input_callback (short InputKeyDown) w))
  = Z.max 0 (dot_threshold w - 10).
Proof.
  intros Hd. cbn.
  destruct (Z.ltb_spec (dot_threshold w) 10); [lia|].
  rewrite u8_small; lia.
Qed.

Lemma run_valid (acts : list Action) (w : World) :
  valid w -> valid (run acts w).
Proof.
  unfold run. revert w.
  induction acts as [|a acts IH]; cbn [fold_left]; intros w Hw; [exact Hw|].
  apply IH, step_valid, Hw.
Qed.

(** X1: on a style in [0,6], a short press of Right undoes a short press of
    Left and the other way round: the whole state is back as it was. *)
Theorem left_right_inverse (w : World) :
  0 <= style w <= 6 ->
  presses InputKeyRight 1 (presses InputKeyLeft 1 w) = w
  /\ presses InputKeyLeft 1 (presses InputKeyRight 1 w) = w.
Proof.
  intros Hs. destruct w as [a d s f r c]. cbn in Hs |- *.
  unfold set_style. cbn [app_running dot_threshold style frame rng canvas].
  split; f_equal.
  - destruct (Z.eqb_spec s 0) as [->|Hn]; [reflexivity|].
    rewrite (u8_small (s - 1)) by lia.
    destruct (Z.eqb_spec (s - 1) 6); [lia|]. rewrite u8_small; lia.
  - destruct (Z.eqb_spec s 6) as [->|Hn]; [reflexivity|].
    rewrite (u8_small (s + 1)) by lia.
    destruct (Z.eqb_spec (s + 1) 0); [lia|]. rewrite u8_small; lia.
Qed.

(** X2: on a style in [0,6], [n] short presses of Right lead to style
    (style + n) mod 7 and [n] short presses of Left to (style - n) mod 7;
    so seven presses of either key come back to the style they started
    from. *)
Theorem style_after_presses (n : nat) (w : World) :
  0 <= style w <= 6 ->
  style (presses InputKeyRight n w) = (style w + Z.of_nat n) mod 7
  /\ style (presses InputKeyLeft n w) = (style w - Z.of_nat n) mod 7.
Proof.
  intros Hs. induction n as [|n [IHr IHl]].
  - cbn [presses Nat.iter nat_rect Z.of_nat]. rewrite Z.add_0_r, Z.sub_0_r.
    rewrite Z.mod_small by lia. split; reflexivity.
  - rewrite !presses_succ, Nat2Z.inj_succ. split.
    + rewrite press_right_style
        by (rewrite IHr;
            pose proof (Z.mod_pos_bound (style w + Z.of_nat n) 7); lia).
      rewrite IHr. rewrite Z.add_mod_idemp_l by lia. f_equal. lia.
    + rewrite press_left_style
        by (rewrite IHl;
            pose proof (Z.mod_pos_bound (style w - Z.of_nat n) 7); lia).
      rewrite IHl. rewrite Zminus_mod_idemp_l. f_equal. lia.
Qed.

(** X3: on a density in [0,100], [n] short presses of Up lead to density
    min(100, density + 10 n) and [n] short presses of Down to
    max(0, density - 10 n): ten presses saturate from anywhere. *)
Theorem density_after_presses (n : nat) (w : World) :
  0 <= dot_threshold w <= 100 ->
  dot_threshold (presses InputKeyUp n w)
    = Z.min 100 (dot_threshold w + 10 * Z.of_nat n)
  /\ dot_threshold (presses InputKeyDown n w)
    = Z.max 0 (dot_threshold w - 10 * Z.of_nat n).
Proof.
  intros Hd. induction n as [|n [IHu IHd]].
  - cbn [presses Nat.iter nat_rect Z.of_nat]. lia.
  - rewrite !presses_succ, Nat2Z.inj_succ. split.
    + rewrite press_up_density by lia. rewrite IHu. lia.
    + rewrite press_down_density by lia. rewrite IHd. lia.
Qed.

(** X4: on a density in [0,100], Down after Up gives min(density, 90) and
    Up after Down gives max(density, 10): the two keys undo each other
    except where the clamp has eaten the step (from 100, and from below
    10). *)
Theorem up_down_round_trip (w : World) :
  0 <= dot_threshold w <= 100 ->
  dot_threshold (presses InputKeyDown 1 (presses InputKeyUp 1 w))
    = Z.min (dot_threshold w) 90
  /\ dot_threshold (presses InputKeyUp 1 (presses InputKeyDown 1 w))
    = Z.max (dot_threshold w) 10.
Proof.
  intros Hd. cbn [presses Nat.iter nat_rect].
  pose proof (press_up_density w Hd) as Hu.
  pose proof (press_down_density w Hd) as Hdn.
  split.
  - rewrite press_down_density by lia. lia.
  - rewrite press_up_density by lia. lia.
Qed.

(** X5: the handler requests a redraw exactly for a short press of one of
    the four arrow keys. *)
Theorem redraw_iff_short_arrow (event : InputEvent) (w : World) :
  snd (input_callback event w) = true
  <-> type event = InputTypeShort
      /\ (key event = InputKeyLeft \/ key event = InputKeyRight
          \/ key event = InputKeyUp \/ key event = InputKeyDown).
Proof.
  unfold input_callback.
  destruct (InputType_eqb (type event) InputTypeShort) eqn:E; cbn [negb].
  - apply InputType_eqb_eq in E.
    destruct (key event); cbn [snd]; split; intros; try tauto;
      try discriminate;
      try (destruct H0 as [_ [K|[K|[K|K]]]]; discriminate K).
  - cbn [snd]. split; [discriminate|]. intros [Ht _].
    apply InputType_eqb_eq in Ht. congruence.
Qed.

(** X7: the handler never draws, never calls [rand] or [srand] and never
    touches the frame counter, whatever the event. *)
Theorem input_callback_frame_rule (event : InputEvent) (w : World) :
  canvas (fst (input_callback event w)) = canvas w
  /\ rng (fst (input_callback event w)) = rng w
  /\ frame (fst (input_callback event w)) = frame w.
Proof.
  unfold input_callback.
  destruct (negb (InputType_eqb (type event) InputTypeShort));
    [repeat split|].
  destruct (key event); repeat split.
Qed.

Lemma input_callback_running (event : InputEvent) (w : World) :
  app_running (fst (input_callback event w)) = false
  <-> app_running w = false \/ event = short InputKeyBack.
Proof.
  unfold input_callback, short. destruct event as [k t].
  cbn [type key].
  destruct t; cbn [InputType_eqb negb fst];
    try (split; [tauto | intros [E|E]; [exact E | discriminate E]]).
  destruct k; cbn [fst set_app_running set_style set_dot_threshold app_running];
    try (split; [tauto | intros [E|E]; [exact E | discriminate E]]).
  split; [right; reflexivity | reflexivity].
Qed.

(** X6: the running flag of a state reached from the initial one is false
    exactly when the run contains a short press of Back: nothing else stops
    the program, and nothing sets the flag again. *)
Theorem stopped_iff_back_pressed (acts : list Action) (tick : Z) (r0 : Rng) :
  app_running (run acts (initial tick r0)) = false
  <-> In (Input (short InputKeyBack)) acts.
Proof.
  assert (G : forall w,
            app_running (run acts w) = false
            <-> app_running w = false \/ In (Input (short InputKeyBack)) acts).
  { unfold run. induction acts as [|a acts IH]; intros w.
    - cbn [fold_left In]. tauto.
    - cbn [fold_left In]. rewrite IH. destruct a as [event|t]; cbn [step].
      + rewrite input_callback_running. split.
        * intros [[E|E]|E]; [tauto | right; left; now rewrite E | tauto].
        * intros [E|[E|E]]; [tauto | left; right; congruence | tauto].
      + pose proof (render_pattern_globals t w) as Hg.
        unfold globals in Hg. injection Hg as Ha _ _ _.
        unfold view_callback. rewrite Ha. split.
        * intros [E|E]; tauto.
        * intros [E|[E|E]]; [tauto | discriminate E | tauto]. }
  rewrite G. cbn [initial app_running]. split; [intros [E|E]|]; try tauto.
  discriminate E.
Qed.

Lemma input_callback_tens (event : InputEvent) (w : World) :
  0 <= dot_threshold w <= 100 -> dot_threshold w mod 10 = 0 ->
  dot_threshold (fst (input_callback event w)) mod 10 = 0.
Proof.
  intros Hd Hm. unfold input_callback.
  destruct (negb (InputType_eqb (type event) InputTypeShort));
    [exact Hm|].
  destruct (key event);
    cbn [fst set_app_running set_style set_dot_threshold dot_threshold];
    try exact Hm.
  - rewrite (u8_small (dot_threshold w + 10)) by lia.
    rewrite clamp_u8_clamp by lia. unfold clamp.
    Z.div_mod_to_equations. lia.
  - destruct (Z.ltb_spec (dot_threshold w) 10); [reflexivity|].
    rewrite u8_small by lia. Z.div_mod_to_equations. lia.
Qed.

(** X8: in every state reached from the initial one the density is a
    multiple of 10 (one of 0, 10, ..., 100). *)
Theorem density_multiple_of_ten (acts : list Action) (tick : Z) (r0 : Rng) :
  dot_threshold (run acts (initial tick r0)) mod 10 = 0.
Proof.
  assert (G : forall w, valid w -> dot_threshold w mod 10 = 0 ->
                        dot_threshold (run acts w) mod 10 = 0).
  { unfold run. induction acts as [|a acts IH]; intros w Hv Hm; [exact Hm|].
    cbn [fold_left]. apply IH; [apply step_valid, Hv|].
    destruct a as [event|t]; cbn [step].
    - apply input_callback_tens; [apply Hv | exact Hm].
    - pose proof (render_pattern_globals t w) as Hg.
      unfold globals in Hg. injection Hg as _ Hd _ _.
      unfold view_callback. rewrite Hd. exact Hm. }
  apply G; [unfold valid, initial; cbn; lia | reflexivity].
Qed.

(** X9: in every state reached from the initial one the star has
    density/10 + 2 spokes, between 2 and 12: neither bound of its clamp to
    [2,16] is ever active. *)
Theorem reachable_spokes (acts : list Action) (tick : Z) (r0 : Rng) :
  let d := dot_threshold (run acts (initial tick r0)) in
  clamp_u8 (u8 (Z.quot d 10 + 2)) 2 16 = d / 10 + 2
  /\ 2 <= d / 10 + 2 <= 12.
Proof.
  cbv zeta.
  assert (Hv : valid (run acts (initial tick r0)))
    by (apply run_valid; unfold valid, initial; cbn; lia).
  destruct Hv as [_ Hd].
  set (d := dot_threshold (run acts (initial tick r0))) in *.
  assert (Hq : 0 <= d / 10 <= 10) by (Z.div_mod_to_equations; lia).
  rewrite Z.quot_div_nonneg by lia.
  rewrite u8_small by lia. rewrite clamp_u8_clamp by lia.
  unfold clamp. lia.
Qed.

End InputHandler.

(** ** The generators and the rest of the state *)

Section GeneratorEffects.

Context {libm : LibM} {rnd : RandSource}.

(** X10: drawing never changes the parameters: after any dispatcher call
    the running flag, the density and the style are what they were. *)
Theorem render_pattern_keeps_parameters (tick : Z) (w : World) :
  app_running (render_pattern tick w) = app_running w
  /\ dot_threshold (render_pattern tick w) = dot_threshold w
  /\ style (render_pattern tick w) = style w.
Proof.
  pose proof (render_pattern_globals tick w) as G.
  unfold globals in G. injection G as Ha Hd Hs _.
  repeat split; assumption.
Qed.

Lemma render_style0_old_canvas (c : Canvas) (w : World) :
  render_style0 (set_canvas c w) = render_style0 w.
Proof. reflexivity. Qed.

Lemma render_style1_old_canvas (c : Canvas) (w : World) :
  render_style1 (set_canvas c w) = render_style1 w.
Proof. reflexivity. Qed.

Lemma render_style2_old_canvas (c : Canvas) (w : World) :
  render_style2 (set_canvas c w) = render_style2 w.
Proof. reflexivity. Qed.

Lemma render_style3_old_canvas (tick : Z) (c : Canvas) (w : World) :
  render_style3 tick (set_canvas c w) = render_style3 tick w.
Proof. reflexivity. Qed.

Lemma render_style4_old_canvas (c : Canvas) (w : World) :
  render_style4 (set_canvas c w) = render_style4 w.
Proof. reflexivity. Qed.

Lemma render_style5_old_canvas (c : Canvas) (w : World) :
  render_style5 (set_canvas c w) = render_style5 w.
Proof. reflexivity. Qed.

Lemma render_style6_old_canvas (c : Canvas) (w : World) :
  render_style6 (set_canvas c w) = render_style6 w.
Proof. reflexivity. Qed.

(** X11: every frame is drawn from scratch: what was on the canvas before
    a dispatcher call has no influence on the state after it. *)
Theorem render_pattern_ignores_old_canvas (tick : Z) (c : Canvas) (w : World) :
  render_pattern tick (set_canvas c w) = render_pattern tick w.
Proof.
  unfold render_pattern, seq.
  change (incr_frame (set_canvas c w)) with (set_canvas c (incr_frame w)).
  change (style (set_canvas c (incr_frame w))) with (style (incr_frame w)).
  rewrite render_style0_old_canvas, render_style1_old_canvas,
    render_style2_old_canvas, render_style3_old_canvas,
    render_style4_old_canvas, render_style5_old_canvas,
    render_style6_old_canvas.
  reflexivity.
Qed.

(** Writes to the canvas leave the random source. *)
Ltac rng_leaf := solve [intros w Hw; exact Hw].

Lemma preserves_reading (P : World -> Prop) (body : World -> Cmd) :
  (forall w0, preserves P (body w0)) -> preserves P (reading body).
Proof. intros Hb w Hw. now apply Hb. Qed.

Lemma keeps_rng_render_style1 : keeps_rng render_style1.
Proof.
  intros r. apply preserves_reading; intros w0.
  preserves_with rng_leaf.
Qed.

Lemma keeps_rng_render_style2 : keeps_rng render_style2.
Proof.
  intros r. apply preserves_reading; intros w0.
  preserves_with rng_leaf.
Qed.

Lemma keeps_rng_render_style4 : keeps_rng render_style4.
Proof.
  intros r. apply preserves_reading; intros w0.
  preserves_with rng_leaf.
Qed.

Lemma keeps_rng_render_style5 : keeps_rng render_style5.
Proof.
  intros r. apply preserves_reading; intros w0.
  preserves_with rng_leaf.
Qed.

Lemma keeps_rng_render_style6 : keeps_rng render_style6.
Proof.
  intros r. apply preserves_reading; intros w0.
  preserves_with rng_leaf.
Qed.

(** X12: the star, the arcs, the swirl, the checkerboard and the sunburst
    (styles 0, 1, 4, 5, 6) never call [rand] or [srand]: a dispatcher call
    on one of these styles leaves the shared random source as it was. *)
Theorem static_styles_keep_rng (tick : Z) (w : World) :
  style w = 0 \/ style w = 1 \/ style w = 4 \/ style w = 5 \/ style w = 6 ->
  rng (render_pattern tick w) = rng w.
Proof.
  intros Hs. unfold render_pattern, seq.
  change (style (incr_frame w)) with (style w).
  change (rng w) with (rng (incr_frame w)).
  generalize (incr_frame w) as w1. intros w1.
  destruct Hs as [E|[E|[E|[E|E]]]]; rewrite E; cbn [Z.eqb Pos.eqb].
  - now apply keeps_rng_render_style2.
  - now apply keeps_rng_render_style1.
  - now apply keeps_rng_render_style4.
  - now apply keeps_rng_render_style5.
  - now apply keeps_rng_render_style6.
Qed.

Lemma advance_add (n m : nat) (r : Rng) :
  advance (n + m) r = advance m (advance n r).
Proof.
  unfold advance. rewrite Nat.add_comm. apply Nat.iter_add.
Qed.

Lemma consumes_skip : consumes skip 0.
Proof. intros w. reflexivity. Qed.

Lemma consumes_canvas (c : Canvas) : consumes (set_canvas c) 0.
Proof. intros w. reflexivity. Qed.

Lemma consumes_draw_dot (x y : Z) : consumes (canvas_draw_dot x y) 0.
Proof. intros w. reflexivity. Qed.

Lemma consumes_seq (a b : Cmd) (n m : nat) :
  consumes a n -> consumes b m -> consumes (seq a b) (n + m).
Proof.
  intros Ha Hb w. unfold seq. rewrite Hb, Ha. symmetry. apply advance_add.
Qed.

Lemma consumes_when (c : bool) (a : Cmd) :
  consumes a 0 -> consumes (when c a) 0.
Proof. destruct c; [trivial | intros _; apply consumes_skip]. Qed.

Lemma consumes_with_rand (k : Z -> Cmd) (n : nat) :
  (forall v, consumes (k v) n) -> consumes (with_rand k) (S n).
Proof.
  intros Hk w. unfold with_rand.
  destruct (rand (rng w)) as [v r] eqn:E. rewrite Hk.
  cbn [rng set_rng]. unfold advance.
  rewrite Nat.iter_succ_r. now rewrite E.
Qed.

Lemma consumes_for_range (lo hi : Z) (body : Z -> Cmd) (n : nat) :
  (forall i, consumes (body i) n) ->
  consumes (for_range lo hi body) (Z.to_nat (hi - lo) * n).
Proof.
  intros Hbody. unfold for_range, zrange.
  generalize (Z.to_nat (hi - lo)) as len. generalize 0%nat as start.
  intros start len. revert start.
  induction len as [|len IH]; intros start w; [reflexivity|].
  cbn [List.seq map fold_left]. rewrite IH, Hbody.
  rewrite <- advance_add. reflexivity.
Qed.

(** X13: the mirrored-dots generator calls [rand] once per pixel of the
    left half, (W/2) * H = 4096 times whatever the density; the noise
    generator reseeds with tick xor frame and then calls [rand] once per
    pixel, W * H = 8192 times. *)
Theorem random_draws_per_frame (tick : Z) (w : World) :
  rng (render_style0 w) = advance (Z.to_nat (W / 2 * H)) (rng w)
  /\ rng (render_style3 tick w)
     = advance (Z.to_nat (W * H))
         (srand (Z.lxor (tick mod 2 ^ 32) (frame w)) (rng w)).
Proof.
  split.
  - unfold render_style0, reading.
    rewrite (consumes_seq _ _ 0 (Z.to_nat 64 * (Z.to_nat 64 * 1))).
    + reflexivity.
    + apply consumes_canvas.
    + apply consumes_for_range; intros x.
      apply consumes_for_range; intros y.
      apply consumes_with_rand; intros v.
      apply consumes_when, (consumes_seq _ _ 0 0); apply consumes_draw_dot.
  - unfold render_style3, reading. cbv zeta. unfold seq at 1 2.
    rewrite (consumes_for_range 0 W _ (Z.to_nat 64 * 1)).
    + reflexivity.
    + intros x. apply consumes_for_range; intros y.
      apply consumes_with_rand; intros v.
      apply consumes_when, consumes_draw_dot.
Qed.

Lemma preserves_fold (P : World -> Prop) (body : Z -> Cmd) (l : list Z) :
  (forall i, In i l -> preserves P (body i)) ->
  preserves P (fun w => fold_left (fun w i => body i w) l w).
Proof.
  induction l as [|i l IH]; intros Hbody w Hw; [exact Hw|].
  cbn [fold_left]. apply IH.
  - intros j Hj. apply Hbody. now right.
  - apply Hbody; [now left | exact Hw].
Qed.

(** What each iteration establishes, and the others keep, holds after the
    loop. *)
Lemma for_range_establishes (Q : Z -> World -> Prop) (lo hi : Z)
      (body : Z -> Cmd) :
  (forall i j, lo <= i < hi -> lo <= j < hi -> preserves (Q i) (body j)) ->
  (forall i, lo <= i < hi -> forall w, Q i (body i w)) ->
  forall i, lo <= i < hi -> forall w, Q i (for_range lo hi body w).
Proof.
  intros Hkeep Hest i Hi. unfold for_range.
  assert (G : forall l, (forall j, In j l -> lo <= j < hi) -> In i l ->
              forall w, Q i (fold_left (fun w j => body j w) l w)).
  { induction l as [|j l IH]; intros Hl Hin w; [destruct Hin|].
    cbn [fold_left].
    assert (Hrest : forall k, In k l -> preserves (Q i) (body k))
      by (intros k Hk; apply Hkeep; [exact Hi | apply Hl; now right]).
    destruct Hin as [->|Hin].
    - apply (preserves_fold (Q i) body l Hrest). apply Hest, Hi.
    - apply IH; [intros k Hk; apply Hl; now right | exact Hin]. }
  apply G; [intros j Hj; now apply zrange_In | now apply zrange_In].
Qed.

Lemma preserves_with_rand_nonneg (P : World -> Prop) (k : Z -> Cmd) :
  rand_nonneg ->
  (forall r, preserves P (set_rng r)) ->
  (forall v, 0 <= v -> preserves P (k v)) ->
  preserves P (with_rand k).
Proof.
  intros Hrand Hr Hk w Hw. unfold with_rand.
  pose proof (Hrand (rng w)) as Hv.
  destruct (rand (rng w)) as [v r]. apply Hk; [exact Hv | apply Hr, Hw].
Qed.

Lemma rem_100_range (v : Z) : 0 <= v -> 0 <= Z.rem v 100 < 100.
Proof.
  intros Hv. rewrite Z.rem_mod_nonneg by lia.
  apply Z.mod_pos_bound. lia.
Qed.

(** X14: with a [rand] that returns no negative value, density 0 gives a
    blank screen on both random styles: the mirrored dots and the noise
    draw nothing at all. *)
Theorem density_zero_blank (tick : Z) (w : World) :
  rand_nonneg -> dot_threshold w = 0 ->
  canvas (render_style0 w) = [] /\ canvas (render_style3 tick w) = [].
Proof.
  intros Hrand Hd. split.
  - unfold render_style0, reading, seq. rewrite Hd.
    apply (preserves_for_range (fun w' => canvas w' = [])); [|reflexivity].
    intros x _. apply preserves_for_range; intros y _.
    apply preserves_with_rand_nonneg;
      [exact Hrand | intros r w' Hw'; exact Hw' |].
    intros v Hv. pose proof (rem_100_range v Hv).
    destruct (Z.ltb_spec (Z.rem v 100) 0); [lia|]. apply preserves_skip.
  - unfold render_style3, reading. cbv zeta. unfold seq. rewrite Hd.
    apply (preserves_for_range (fun w' => canvas w' = [])); [|reflexivity].
    intros x _. apply preserves_for_range; intros y _.
    apply preserves_with_rand_nonneg;
      [exact Hrand | intros r w' Hw'; exact Hw' |].
    intros v Hv. pose proof (rem_100_range v Hv).
    rewrite Z.mul_0_r. rewrite Z.quot_0_l by discriminate.
    cbn [Z.sub Z.opp Z.add Z.ltb Z.compare]. change (u8 0) with 0.
    destruct (Z.ltb_spec (Z.rem v 100) 0); [lia|]. apply preserves_skip.
Qed.

Lemma draw_keeps_dot (p : Z * Z) (x y : Z) :
  preserves (fun w => In p (canvas w)) (canvas_draw_dot x y).
Proof. intros w Hw. right. exact Hw. Qed.

Lemma render_style0_cell_keeps_dot (p : Z * Z) (d x y : Z) :
  preserves (fun w => In p (canvas w))
    (with_rand (fun v =>
       when (Z.rem v 100 <? d)
         (seq (canvas_draw_dot x y) (canvas_draw_dot (W - 1 - x) y)))).
Proof.
  apply preserves_with_rand; [intros r w Hw; exact Hw|]. intros v.
  apply preserves_when, preserves_seq; apply draw_keeps_dot.
Qed.

(** X15: with a [rand] that returns no negative value, a density of 100 or
    more makes the mirrored-dots generator light every pixel of the
    screen. *)
Theorem density_full_screen (w : World) (x y : Z) :
  rand_nonneg -> 100 <= dot_threshold w ->
  0 <= x < W -> 0 <= y < H ->
  is_lit (render_style0 w) x y.
Proof.
  intros Hrand Hd Hx Hy. unfold is_lit.
  assert (G : forall x0, 0 <= x0 < Z.quot W 2 ->
            In (x0, y) (canvas (render_style0 w))
            /\ In (W - 1 - x0, y) (canvas (render_style0 w))).
  { intros x0 Hx0. unfold render_style0, reading, seq.
    apply (for_range_establishes
             (fun x1 w' => In (x1, y) (canvas w')
                           /\ In (W - 1 - x1, y) (canvas w'))
             0 (Z.quot W 2)); [| |exact Hx0].
    - intros i j _ _ w' [H1 H2]. split.
      + revert H1. apply (preserves_for_range (fun w' => In (i, y) (canvas w'))).
        intros y0 _. apply render_style0_cell_keeps_dot.
      + revert H2.
        apply (preserves_for_range (fun w' => In (W - 1 - i, y) (canvas w'))).
        intros y0 _. apply render_style0_cell_keeps_dot.
    - intros i _ w'.
      apply (for_range_establishes
               (fun y1 w' => In (i, y1) (canvas w')
                             /\ In (W - 1 - i, y1) (canvas w'))
               0 H); [| |exact Hy].
      + intros y1 y2 _ _ w'' [H1 H2].
        split; [revert H1 | revert H2]; apply render_style0_cell_keeps_dot.
      + intros y1 _ w''. unfold with_rand.
        pose proof (Hrand (rng w'')) as Hv.
        destruct (rand (rng w'')) as [v r]. cbn [fst] in Hv.
        pose proof (rem_100_range v Hv).
        destruct (Z.ltb_spec (Z.rem v 100) (dot_threshold w)); [|lia].
        unfold when, seq, canvas_draw_dot. cbn [canvas set_canvas].
        split; [right; left; reflexivity | left; reflexivity]. }
  change (Z.quot W 2) with 64 in G. unfold W in Hx.
  destruct (Z.lt_ge_cases x 64) as [Hlt|Hge].
  - apply G. lia.
  - destruct (G (W - 1 - x)) as [_ Hm]; [unfold W; lia|].
    replace (W - 1 - (W - 1 - x)) with x in Hm by lia. exact Hm.
Qed.

(** X16: with a [rand] that returns no negative value, the noise generator
    never lights the corner pixel (0, 0), the one at the largest distance
    from the centre: its local threshold is 0 at every density. *)
Theorem noise_corner_dark (tick : Z) (w : World) :
  rand_nonneg -> ~ is_lit (render_style3 tick w) 0 0.
Proof.
  intros Hrand. unfold is_lit, render_style3, reading. cbv zeta.
  unfold seq.
  apply (preserves_for_range (fun w' => ~ In (0, 0) (canvas w')));
    [|intros []].
  intros x Hx. apply preserves_for_range; intros y Hy.
  apply preserves_with_rand_nonneg;
    [exact Hrand | intros r w' Hw'; exact Hw' |].
  intros v Hv. pose proof (rem_100_range v Hv).
  assert (x = 0 /\ y = 0 \/ (x, y) <> (0, 0)) as [[-> ->]|Hne].
  { destruct (Z.eq_dec x 0) as [->|]; [|right; congruence].
    destruct (Z.eq_dec y 0) as [->|]; [left; tauto | right; congruence]. }
  - change (Z.abs (0 - Z.quot W 2) + Z.abs (0 - Z.quot H 2)) with 96.
    change (Z.quot W 2 + Z.quot H 2) with 96.
    rewrite Z.mul_comm, Z.quot_mul by discriminate.
    rewrite Z.sub_diag. cbn [Z.ltb Z.compare]. change (u8 0) with 0.
    destruct (Z.ltb_spec (Z.rem v 100) 0); [lia|]. apply preserves_skip.
  - apply preserves_when. intros w' Hw' [E|Hin]; [congruence | tauto].
Qed.

End GeneratorEffects.

(** ** State changes the generators do not see *)

Section Commuting.

Context {libm : LibM} {rnd : RandSource}.

(** A change of the state that touches neither the random source nor the
    canvas, such as a write to [style] or to [app_running]. *)
Variable f : World -> World.
Hypothesis f_rng : forall w, rng (f w) = rng w.
Hypothesis f_set_rng : forall r w, set_rng r (f w) = f (set_rng r w).
Hypothesis f_set_canvas : forall c w, set_canvas c (f w) = f (set_canvas c w).
Hypothesis f_canvas : forall w, canvas (f w) = canvas w.

Lemma commutes_skip : commutes f skip.
Proof. intros w. reflexivity. Qed.

Lemma commutes_seq (a b : Cmd) :
  commutes f a -> commutes f b -> commutes f (seq a b).
Proof. intros Ha Hb w. unfold seq. now rewrite Ha, Hb. Qed.

Lemma commutes_when (c : bool) (a : Cmd) :
  commutes f a -> commutes f (when c a).
Proof. destruct c; [trivial | intros _; apply commutes_skip]. Qed.

Lemma commutes_for_range (lo hi : Z) (body : Z -> Cmd) :
  (forall i, commutes f (body i)) -> commutes f (for_range lo hi body).
Proof.
  intros Hbody w. unfold for_range. revert w.
  induction (zrange lo hi) as [|i l IH]; intros w; [reflexivity|].
  cbn [fold_left]. rewrite Hbody. apply IH.
Qed.

Lemma commutes_with_rand (k : Z -> Cmd) :
  (forall v, commutes f (k v)) -> commutes f (with_rand k).
Proof.
  intros Hk w. unfold with_rand. rewrite f_rng.
  destruct (rand (rng w)) as [v r]. rewrite f_set_rng. apply Hk.
Qed.

Lemma commutes_canvas_clear : commutes f canvas_clear.
Proof. intros w. unfold canvas_clear. apply f_set_canvas. Qed.

Lemma commutes_draw_dot (x y : Z) : commutes f (canvas_draw_dot x y).
Proof.
  intros w. unfold canvas_draw_dot. rewrite f_canvas. apply f_set_canvas.
Qed.

Lemma commutes_reading (body : World -> Cmd) :
  (forall w, body (f w) = body w) ->
  (forall w0, commutes f (body w0)) ->
  commutes f (reading body).
Proof. intros Hread Hbody w. unfold reading. rewrite Hread. apply Hbody. Qed.

Lemma commutes_srand (seed : Z) :
  commutes f (fun w => set_rng (srand seed (rng w)) w).
Proof. intros w. cbv beta. rewrite f_rng. apply f_set_rng. Qed.

End Commuting.

Ltac commutes_tac :=
  cbv zeta;
  repeat
    (intros; cbv zeta;
     lazymatch goal with
     | |- commutes _ skip => apply commutes_skip
     | |- commutes _ (seq _ _) => apply commutes_seq
     | |- commutes _ (when _ _) => apply commutes_when
     | |- commutes _ (for_range _ _ _) => apply commutes_for_range
     | |- commutes _ (with_rand _) => apply commutes_with_rand
     | |- commutes _ canvas_clear => apply commutes_canvas_clear
     | |- commutes _ (canvas_draw_dot _ _) => apply commutes_draw_dot
     | |- commutes _ (fun w => set_rng (srand _ (rng w)) w) =>
         apply commutes_srand
     | |- _ = _ => reflexivity
     end).

Section Independence.

Context {libm : LibM} {rnd : RandSource}.

(** Writes to [style] and to [app_running] are such changes. *)
Ltac generator_commutes :=
  apply commutes_reading; try reflexivity; intros w0; commutes_tac.

Lemma render_style0_set_style (s : Z) : commutes (set_style s) render_style0.
Proof. generator_commutes. Qed.

Lemma render_style3_set_style (tick s : Z) :
  commutes (set_style s) (render_style3 tick).
Proof. generator_commutes. Qed.

Lemma render_style3_set_app_running (tick : Z) (a : bool) :
  commutes (set_app_running a) (render_style3 tick).
Proof. generator_commutes. Qed.

(** X17: on a style outside [0,6] the dispatcher does exactly what it does
    on style 3, the style value itself apart: the two calls end in states
    that differ in [style] only. *)
Theorem fallback_same_as_style3 (tick : Z) (w : World) :
  ~ (0 <= style w <= 6) ->
  render_pattern tick (set_style 3 w) = set_style 3 (render_pattern tick w).
Proof.
  intros Hs.
  assert (E : render_pattern tick w = render_style0 (incr_frame w)).
  { unfold render_pattern, seq.
    change (style (incr_frame w)) with (style w).
    destruct (Z.eqb_spec (style w) 0); [lia|].
    destruct (Z.eqb_spec (style w) 1); [lia|].
    destruct (Z.eqb_spec (style w) 2); [lia|].
    destruct (Z.eqb_spec (style w) 3); [lia|].
    destruct (Z.eqb_spec (style w) 4); [lia|].
    destruct (Z.eqb_spec (style w) 5); [lia|].
    destruct (Z.eqb_spec (style w) 6); [lia|].
    reflexivity. }
  rewrite E.
  change (render_pattern tick (set_style 3 w))
    with (render_style0 (set_style 3 (incr_frame w))).
  apply render_style0_set_style.
Qed.

Lemma render_style3_old_rng (tick : Z) (r : Rng) (w : World) :
  srand_resets -> render_style3 tick (set_rng r w) = render_style3 tick w.
Proof.
  intros Hs. unfold render_style3, reading. cbv zeta. unfold seq.
  change (rng (canvas_clear (set_rng r w))) with r.
  change (rng (canvas_clear w)) with (rng w).
  rewrite (Hs _ r (rng w)). reflexivity.
Qed.

(** X18: when [srand] installs the seed whatever the generator's state was,
    what the noise generator draws and the state it leaves the random
    source in depend on the tick, the frame counter and the density only:
    not on the random draws made before, nor on the rest of the state. *)
Theorem noise_reproducible (tick : Z) (w1 w2 : World) :
  srand_resets ->
  dot_threshold w1 = dot_threshold w2 -> frame w1 = frame w2 ->
  canvas (render_style3 tick w1) = canvas (render_style3 tick w2)
  /\ rng (render_style3 tick w1) = rng (render_style3 tick w2).
Proof.
  intros Hs Hd Hf.
  destruct w1 as [a1 d1 s1 f1 r1 c1], w2 as [a2 d2 s2 f2 r2 c2].
  cbn [dot_threshold frame] in Hd, Hf. subst d2 f2.
  change (mkWorld a1 d1 s1 f1 r1 c1)
    with (set_app_running a1 (set_style s1 (set_rng r1 (set_canvas c1
            (mkWorld a2 d1 s2 f1 r2 c2))))).
  rewrite render_style3_set_app_running, render_style3_set_style.
  rewrite render_style3_old_rng by exact Hs.
  rewrite render_style3_old_canvas.
  split; reflexivity.
Qed.

End Independence.

(** ** The per-pixel generators *)

Section PixelGenerators.

Context {libm : LibM} {rnd : RandSource}.

Lemma for_range_ext (lo hi : Z) (body body' : Z -> Cmd) :
  (forall i, body i = body' i) ->
  for_range lo hi body = for_range lo hi body'.
Proof.
  intros Hb. unfold for_range.
  induction (zrange lo hi) as [|i l IH]; [reflexivity|].
  cbn [fold_left]. rewrite Hb.
  symmetry.
  change ((fun w => fold_left (fun w0 i0 => body' i0 w0) l (body' i w))
          = (fun w => fold_left (fun w0 i0 => body i0 w0) l (body' i w))).
  assert (E : (fun w => fold_left (fun w0 i0 => body i0 w0) l w)
              = (fun w => fold_left (fun w0 i0 => body' i0 w0) l w))
    by exact IH.
  exact (eq_sym (f_equal (fun g w => g (body' i w)) E)).
Qed.

(** The double loop over the grid lights the pixels that pass the test. *)
Lemma pixel_loop_lit (test : Z -> Z -> bool) (w : World) (x y : Z) :
  In (x, y)
     (canvas
        (for_range 0 H (fun y =>
           for_range 0 W (fun x => when (test x y) (canvas_draw_dot x y)))
           (canvas_clear w)))
  <-> 0 <= x < W /\ 0 <= y < H /\ test x y = true.
Proof.
  rewrite (paints_for_range 0 H _
             (fun y0 => flat_map
                          (fun x0 => if test x0 y0 then [(x0, y0)] else [])
                          (rev (zrange 0 W)))).
  - unfold canvas_clear. cbn [canvas set_canvas]. rewrite app_nil_r.
    rewrite in_flat_map_rev. split.
    + intros [y0 [Hy Hp]]. apply zrange_In in Hy.
      apply in_flat_map_rev in Hp. destruct Hp as [x0 [Hx Hp]].
      apply zrange_In in Hx.
      destruct (test x0 y0) eqn:E; [|destruct Hp].
      destruct Hp as [Hp|[]].
      assert (x0 = x /\ y0 = y) as [-> ->] by (split; congruence).
      tauto.
    + intros [Hx [Hy Ht]]. exists y. split; [now apply zrange_In|].
      apply in_flat_map_rev. exists x. split; [now apply zrange_In|].
      rewrite Ht. left. reflexivity.
  - intros y0 _. apply paints_for_range. intros x0 _.
    destruct (test x0 y0); [apply paints_draw_dot | apply paints_skip].
Qed.

Lemma render_style4_lit (w : World) (x y : Z) :
  is_lit (render_style4 w) x y
  <-> 0 <= x < W /\ 0 <= y < H /\ swirl_on (frame w) x y = true.
Proof. apply (pixel_loop_lit (swirl_on (frame w))). Qed.

Lemma render_style6_lit (w : World) (x y : Z) :
  is_lit (render_style6 w) x y
  <-> 0 <= x < W /\ 0 <= y < H
      /\ sunburst_on (frame w) (dot_threshold w) x y = true.
Proof. apply (pixel_loop_lit (sunburst_on (frame w) (dot_threshold w))). Qed.

Lemma render_style5_lit (w : World) (x y : Z) :
  is_lit (render_style5 w) x y
  <-> 0 <= x < W /\ 0 <= y < H /\ checker_on (frame w) x y = true.
Proof.
  rewrite <- (pixel_loop_lit (checker_on (frame w)) w).
  unfold is_lit, render_style5, reading, seq.
  rewrite (for_range_ext 0 H _
             (fun y0 => for_range 0 W (fun x0 =>
                when (checker_on (frame w) x0 y0) (canvas_draw_dot x0 y0)))).
  - reflexivity.
  - intros y0. apply for_range_ext. intros x0. unfold checker_on.
    cbv zeta. destruct (negb _); reflexivity.
Qed.

(** X19: the swirl, the checkerboard and the sunburst light exactly the
    pixels of the W x H grid that pass their test, a function of the pixel,
    the frame counter and (for the sunburst) the density alone. *)
Theorem pixel_generators_pointwise (w : World) (x y : Z) :
  (is_lit (render_style4 w) x y
   <-> 0 <= x < W /\ 0 <= y < H /\ swirl_on (frame w) x y = true)
  /\ (is_lit (render_style5 w) x y
      <-> 0 <= x < W /\ 0 <= y < H /\ checker_on (frame w) x y = true)
  /\ (is_lit (render_style6 w) x y
      <-> 0 <= x < W /\ 0 <= y < H
          /\ sunburst_on (frame w) (dot_threshold w) x y = true).
Proof.
  split; [apply render_style4_lit|].
  split; [apply render_style5_lit | apply render_style6_lit].
Qed.

Lemma draw_in_bounds (x y : Z) :
  0 <= x < W -> 0 <= y < H ->
  preserves (fun w => in_bounds (canvas w)) (canvas_draw_dot x y).
Proof.
  intros Hx Hy w Hw a b [E|Hin]; [|now apply Hw].
  assert (a = x /\ b = y) as [-> ->] by (split; congruence). tauto.
Qed.

(** X20: the noise, the swirl, the checkerboard and the sunburst draw
    inside the W x H grid only, whatever the C library computes. *)
Theorem pixel_generators_in_bounds (tick : Z) (w : World) :
  in_bounds (canvas (render_style3 tick w))
  /\ in_bounds (canvas (render_style4 w))
  /\ in_bounds (canvas (render_style5 w))
  /\ in_bounds (canvas (render_style6 w)).
Proof.
  split; [|split; [|split]].
  - unfold render_style3, reading. cbv zeta. unfold seq.
    apply (preserves_for_range (fun w' => in_bounds (canvas w')));
      [|intros a b []].
    intros x Hx. apply preserves_for_range; intros y Hy.
    apply preserves_with_rand; [intros r w' Hw'; exact Hw'|]. intros v.
    apply preserves_when, draw_in_bounds; assumption.
  - intros a b Hin. apply (proj1 (render_style4_lit w a b)) in Hin. tauto.
  - intros a b Hin. apply (proj1 (render_style5_lit w a b)) in Hin. tauto.
  - intros a b Hin. apply (proj1 (render_style6_lit w a b)) in Hin. tauto.
Qed.

End PixelGenerators.

(** ** More on the concentric arcs *)

Section ArcsShape.

Context {libm : LibM} {rnd : RandSource}.

Lemma steps_range (fuel : nat) (i hi step r : Z) :
  0 <= step -> In r (steps fuel i hi step) -> i <= r < hi.
Proof.
  intros Hstep. revert i.
  induction fuel as [|n IH]; intros i; cbn [steps]; [intros []|].
  destruct (Z.ltb_spec i hi); [|intros []].
  intros [<-|Hin]; [lia|]. apply IH in Hin. lia.
Qed.

Lemma half_chord_range (r dy : Z) :
  0 <= r <= 31 -> - r <= dy <= r ->
  0 <= half_chord (r * r - dy * dy) <= r.
Proof.
  intros Hr Hdy.
  assert (Hin : 0 <= r * r - dy * dy <= 961) by nia.
  destruct (half_chord_nearest _ Hin) as [H0 [_ Hlow]].
  split; [exact H0|].
  destruct (Z.eq_dec (half_chord (r * r - dy * dy)) 0) as [->|Hne]; [lia|].
  assert (Hpos : 0 < half_chord (r * r - dy * dy)) by lia.
  specialize (Hlow Hpos). nia.
Qed.

Lemma clamp_u8_range (v lo hi : Z) :
  lo <= hi -> lo <= clamp_u8 v lo hi <= hi.
Proof.
  intros Hlh. unfold clamp_u8.
  destruct (Z.ltb_spec v lo); [lia|].
  destruct (v >? hi) eqn:E; [lia|].
  rewrite Z.gtb_ltb in E. apply Z.ltb_ge in E. lia.
Qed.

(** The dots of the arcs, ring by ring. *)
Lemma render_style1_dots (w : World) (x y : Z) :
  0 <= frame w ->
  In (x, y) (canvas (render_style1 w))
  <-> exists r dy,
        0 <= r <= 31 /\ - r <= dy <= r
        /\ In r (steps (Z.to_nat (Z.quot H 2))
                   (Z.rem (frame w)
                      (clamp_u8 (u8 (Z.quot (dot_threshold w) 10 + 2)) 2 10))
                   (Z.quot H 2)
                   (clamp_u8 (u8 (Z.quot (dot_threshold w) 10 + 2)) 2 10))
        /\ y = 32 + dy
        /\ (x = 64 + half_chord (r * r - dy * dy)
            \/ x = 64 - half_chord (r * r - dy * dy)).
Proof.
  intros Hf. rewrite render_style1_canvas.
  set (step := clamp_u8 (u8 (Z.quot (dot_threshold w) 10 + 2)) 2 10).
  assert (Hstep : 2 <= step <= 10) by (apply clamp_u8_range; lia).
  assert (Hoff : 0 <= Z.rem (frame w) step)
    by (apply Z.rem_nonneg; lia).
  rewrite in_flat_map_rev. split.
  - intros [r [Hr Hp]]. pose proof Hr as Hr'.
    apply steps_range in Hr'; [|lia].
    change (Z.quot H 2) with 32 in Hr'.
    unfold ring_dots in Hp. apply in_flat_map_rev in Hp.
    destruct Hp as [dy [Hdy Hp]]. apply zrange_In in Hdy.
    unfold chord_dots in Hp. cbv zeta in Hp.
    change (Z.quot W 2) with 64 in Hp. change (Z.quot H 2) with 32 in Hp.
    destruct (Z.ltb_spec (r * r - dy * dy) 0) as [Hneg|_]; [nia|].
    exists r, dy. split; [lia|]. split; [lia|]. split; [exact Hr|].
    destruct Hp as [E|[E|[]]];
      assert (x = fst (x, y) /\ y = snd (x, y)) as [Ex Ey]
        by (split; reflexivity);
      rewrite <- E in Ex, Ey; cbn [fst snd] in Ex, Ey; tauto.
  - intros [r [dy [Hr [Hdy [Hin [Ey Ex]]]]]]. exists r. split; [exact Hin|].
    unfold ring_dots. apply in_flat_map_rev. exists dy.
    split; [apply zrange_In; lia|].
    unfold chord_dots. cbv zeta.
    change (Z.quot W 2) with 64. change (Z.quot H 2) with 32.
    destruct (Z.ltb_spec (r * r - dy * dy) 0) as [Hneg|_]; [nia|].
    subst y. destruct Ex as [->| ->]; [left | right; left]; reflexivity.
Qed.

(** X21: the arcs stay inside the W x H grid and are symmetric in both
    axes through the centre: with every dot (x, y) the dots (W - x, y),
    (x, H - y) and (W - x, H - y) are plotted too. *)
Theorem arcs_in_bounds_and_symmetric (w : World) :
  0 <= frame w ->
  in_bounds (canvas (render_style1 w))
  /\ closed_under mirror_centre (canvas (render_style1 w))
  /\ closed_under mirror_row (canvas (render_style1 w))
  /\ closed_under mirror_point (canvas (render_style1 w)).
Proof.
  intros Hf.
  assert (Hc : closed_under mirror_centre (canvas (render_style1 w))).
  { intros [x y] Hp. unfold mirror_centre. cbn [fst snd].
    apply (proj1 (render_style1_dots w x y Hf)) in Hp.
    apply (proj2 (render_style1_dots w _ _ Hf)).
    destruct Hp as [r [dy [Hr [Hdy [Hin [Ey Ex]]]]]].
    exists r, dy. repeat (split; [assumption|]). unfold W. lia. }
  assert (Hr : closed_under mirror_row (canvas (render_style1 w))).
  { intros [x y] Hp. unfold mirror_row. cbn [fst snd].
    apply (proj1 (render_style1_dots w x y Hf)) in Hp.
    apply (proj2 (render_style1_dots w _ _ Hf)).
    destruct Hp as [r [dy [Hr [Hdy [Hin [Ey Ex]]]]]].
    exists r, (- dy). rewrite Z.mul_opp_opp.
    split; [assumption|]. split; [lia|]. split; [assumption|].
    split; [unfold H; lia | assumption]. }
  split; [|split; [exact Hc|split; [exact Hr|]]].
  - intros x y Hp. apply (proj1 (render_style1_dots w x y Hf)) in Hp.
    destruct Hp as [r [dy [Hr0 [Hdy [_ [Ey Ex]]]]]].
    pose proof (half_chord_range r dy Hr0 Hdy). unfold W, H. lia.
  - intros [x y] Hp. apply Hc in Hp. apply Hr in Hp. exact Hp.
Qed.

(** X22: the arcs depend on the frame counter through frame mod step only,
    step = clamp(density/10 + 2, 2, 10): two frames that agree modulo the
    ring spacing show the same picture, so the animation repeats every
    [step] frames. *)
Theorem arcs_periodic (w1 w2 : World) :
  0 <= dot_threshold w1 < 256 -> dot_threshold w2 = dot_threshold w1 ->
  0 <= frame w1 -> 0 <= frame w2 ->
  frame w1 mod clamp (dot_threshold w1 / 10 + 2) 2 10
  = frame w2 mod clamp (dot_threshold w1 / 10 + 2) 2 10 ->
  canvas (render_style1 w1) = canvas (render_style1 w2).
Proof.
  intros Hd Ed Hf1 Hf2 Em.
  rewrite !render_style1_canvas. rewrite Ed.
  rewrite step_of_density by exact Hd.
  assert (Hstep : 2 <= clamp (dot_threshold w1 / 10 + 2) 2 10 <= 10)
    by (unfold clamp; lia).
  rewrite !Z.rem_mod_nonneg by lia. rewrite Em. reflexivity.
Qed.

End ArcsShape.

(** ** More on the star and on the density keys *)

Section StarAndKeys.

Context {libm : LibM} {rnd : RandSource}.

Lemma to_int_times_zero (c : F32.float) :
  is_finite c = true -> F32.to_int (c * F32.of_int 0)%f32 = 0.
Proof. destruct c; intros E; try discriminate E; reflexivity. Qed.

(** X23: the star always lights the centre pixel (W/2, H/2): it is the dot
    of length 0 of the first spoke, provided [cosf] and [sinf] return a
    finite value at that spoke's angle. *)
Theorem star_centre_lit (w : World) :
  let spokes := clamp_u8 (u8 (Z.quot (dot_threshold w) 10 + 2)) 2 16 in
  let a := spoke_angle (frame w) spokes 0 in
  is_finite (cosf a) = true -> is_finite (sinf a) = true ->
  is_lit (render_style2 w) (W / 2) (H / 2).
Proof.
  intros spokes a Hc Hs. unfold is_lit. rewrite render_style2_canvas.
  fold spokes.
  assert (Hsp : 2 <= spokes <= 16) by (apply clamp_u8_range; lia).
  apply in_flat_map_rev. exists 0. split; [apply zrange_In; lia|].
  unfold spoke_dots. apply in_or_app. right.
  apply line_dots_In. exists 0. fold a.
  unfold x_off, y_off. rewrite !to_int_times_zero by assumption.
  change (Z.quot W 2) with 64. change (Z.quot H 2) with 32.
  change (W / 2) with 64. change (H / 2) with 32. lia.
Qed.

(** X24: on the whole range of a [uint8_t] density, a short press of Up
    gives min(100, density + 10) up to 245 and density - 246 above (the sum
    wraps before it is clamped), and a short press of Down gives 0 below 10
    and density - 10 otherwise (it never clamps from above). *)
Theorem density_keys_on_uint8 (w : World) :
  0 <= dot_threshold w < 256 ->
  dot_threshold (presses InputKeyUp 1 w)
    = (if dot_threshold w <=? 245 then Z.min 100 (dot_threshold w + 10)
       else dot_threshold w - 246)
  /\ dot_threshold (presses InputKeyDown 1 w)
    = (if dot_threshold w <? 10 then 0 else dot_threshold w - 10).
Proof.
  intros Hd. cbn. split.
  - destruct (Z.leb_spec (dot_threshold w) 245).
    + rewrite (u8_small (dot_threshold w + 10)) by lia.
      rewrite clamp_u8_clamp by lia. unfold clamp. lia.
    + assert (E : u8 (dot_threshold w + 10) = dot_threshold w - 246).
      { unfold u8. change (2 ^ 8) with 256.
        Z.div_mod_to_equations. lia. }
      rewrite E. rewrite clamp_u8_clamp by lia. unfold clamp. lia.
  - destruct (Z.ltb_spec (dot_threshold w) 10); [reflexivity|].
    rewrite u8_small; lia.
Qed.

End StarAndKeys.

Lemma litb_spec (c : Canvas) (x y : Z) : litb c x y = true <-> In (x, y) c.
Proof.
  unfold litb. rewrite existsb_exists. split.
  - intros [[a b] [Hin Hab]]. cbn [fst snd] in Hab.
    apply andb_true_iff in Hab. destruct Hab as [Ea Eb].
    apply Z.eqb_eq in Ea, Eb. now subst.
  - intros Hin. exists (x, y). split; [exact Hin|].
    cbn [fst snd]. now rewrite !Z.eqb_refl.
Qed.

(** ** Checks of the floating-point model *)

Import Ref.

Example lit_0_05 : F32.lit 5 100 = S754_finite false 13421773 (-28).
Proof. reflexivity. Qed.

Example lit_pi : F32.lit 314159 100000 = S754_finite false 13176784 (-22).
Proof. reflexivity. Qed.

Example to_int_truncates :
  F32.to_int (F32.lit 29 10) = 2 /\ F32.to_int (F32.lit (-29) 10) = -2.
Proof. split; reflexivity. Qed.

Example floorf_rounds_down :
  F32.to_int (F32.floorf (F32.lit 29 10)) = 2
  /\ F32.to_int (F32.floorf (F32.lit (-29) 10)) = -3
  /\ F32.floorf (F32.of_int (-3)) = F32.of_int (-3).
Proof. repeat split; reflexivity. Qed.

Example ref_trig_values :
  cosf (F32.of_int 0) = F32.of_int 1
  /\ sinf (F32.of_int 0) = S754_zero false
  /\ F32.to_int (sinf (F32.lit 5 100) * F32.of_int 1000000)%f32 = 49979
  /\ F32.to_int (cosf (F32.lit 5 100) * F32.of_int 1000000)%f32 = 998750
  /\ F32.to_int (atan2f (F32.of_int 1) (F32.of_int (-1)) * F32.of_int 1000000)%f32
     = 2356194.
Proof. repeat split; vm_compute; reflexivity. Qed.

(** ** Runs on the reference library *)

(** The state after the first draw request: the first frame shown. *)
Example first_frame_globals :
  globals (render_pattern 0 world0) = (true, 50, 0, 1).
Proof. apply render_pattern_globals. Qed.

(** The first frame is the star: it is not what the mirrored-dots generator
    draws in the same state. *)
Example first_frame_is_not_mirrored_dots :
  length (canvas (render_pattern 0 world0)) = 1344%nat
  /\ length (canvas (render_style0 (incr_frame world0))) = 4090%nat.
Proof. split; vm_compute; reflexivity. Qed.

Lemma style_transitions_witness :
  style (fst (input_callback (short InputKeyLeft) world0)) = 6
  /\ style (fst (input_callback (short InputKeyRight) world0)) = 1.
Proof.
  assert (Hs : 0 <= style world0 <= 6) by (cbn; lia).
  destruct (style_transitions world0 Hs) as [HL [HR _]].
  split; [exact HL | exact HR].
Defined.

Lemma density_transitions_witness :
  dot_threshold (fst (input_callback (short InputKeyUp) world0)) = 60
  /\ dot_threshold (fst (input_callback (short InputKeyDown) world0)) = 40.
Proof.
  assert (Hd : 0 <= dot_threshold world0 <= 100) by (cbn; lia).
  destruct (density_transitions world0 Hd) as [HU [HD _]].
  split; [exact HU | exact HD].
Defined.

Lemma non_short_press_ignored_witness :
  input_callback (mkInputEvent InputKeyBack InputTypeLong) world0
  = (world0, false).
Proof.
  apply (non_short_press_ignored (mkInputEvent InputKeyBack InputTypeLong)).
  cbn. discriminate.
Defined.

Lemma out_of_range_style_fallback_witness :
  render_pattern 0 (set_style 9 world0)
  = render_style0 (incr_frame (set_style 9 world0))
  /\ style (render_pattern 0 (set_style 9 world0)) = 9
  /\ frame (render_pattern 0 (set_style 9 world0)) = 1
  /\ in_bounds (canvas (render_pattern 0 (set_style 9 world0))).
Proof.
  assert (Hs : ~ (0 <= style (set_style 9 world0) <= 6)) by (cbn; lia).
  destruct (out_of_range_style_fallback 0 (set_style 9 world0) Hs)
    as [E [_ [_ [Hst [Hf Hb]]]]].
  split; [exact E|]. split; [exact Hst|]. split; [exact Hf | exact Hb].
Defined.

Lemma mirrored_dots_symmetry_witness :
  is_lit (render_style0 world0) 3 5
  <-> is_lit (render_style0 world0) (W - 1 - 3) 5.
Proof.
  apply (mirrored_dots_symmetry world0 3 5); unfold W, H; cbn; lia.
Defined.

(** With density 50 and frame 1 the innermost ring has radius 1: the dots
    (63, 32) and (65, 32) are on it. *)
Lemma concentric_arcs_witness :
  is_lit (render_style1 (incr_frame world0)) 63 32
  /\ is_lit (render_style1 (incr_frame world0)) 65 32.
Proof.
  assert (Hd : 0 <= dot_threshold (incr_frame world0) < 256) by (cbn; lia).
  assert (Hf : 0 <= frame (incr_frame world0) < 2 ^ 32) by (cbn; lia).
  destruct (concentric_arcs (incr_frame world0) Hd Hf) as [_ Hdots].
  split; apply Hdots; exists 0, 0, 1; cbn; unfold nearest_to_sqrt; lia.
Defined.

Lemma rotating_star_witness :
  closed_under mirror_centre (canvas (render_style2 (incr_frame world0))).
Proof.
  assert (Hd : 0 <= dot_threshold (incr_frame world0) < 256) by (cbn; lia).
  exact (proj2 (rotating_star (incr_frame world0) Hd)).
Defined.

(** C5, as stated, fails on the first frame the program draws (density 50,
    frame 1, seven spokes): spoke 0 at length 63 has the offsets (62, 3), so
    the dot (cx + 62, cy + 3) is plotted, and the point-mirrored dot
    (cx - 62, cy - 3) is not. *)
Lemma rotating_star_not_point_mirrored :
  let w := render_pattern 0 world0 in
  x_off (spoke_angle 1 7 0) 63 = 62
  /\ y_off (spoke_angle 1 7 0) 63 = 3
  /\ is_lit w (64 + 62) (32 + 3)
  /\ ~ is_lit w (64 - 62) (32 - 3)
  /\ ~ closed_under mirror_point (canvas w).
Proof.
  cbv zeta.
  assert (Hlit : In (126, 35) (canvas (render_pattern 0 world0)))
    by (apply litb_spec; vm_compute; reflexivity).
  assert (Hnot : ~ In (2, 29) (canvas (render_pattern 0 world0))).
  { intros Hin. apply litb_spec in Hin. vm_compute in Hin.
    discriminate Hin. }
  split; [vm_compute; reflexivity|].
  split; [vm_compute; reflexivity|].
  split; [exact Hlit|]. split; [exact Hnot|].
  intros Hclosed. apply Hnot. exact (Hclosed (126, 35) Hlit).
Qed.

(** The reference [rand] returns no negative value and the reference
    [srand] forgets the generator's state. *)
Lemma ref_rand_nonneg : rand_nonneg.
Proof.
  intros r. cbn [rand rnd fst].
  apply Z.rem_nonneg; [discriminate|].
  apply Z.quot_pos; [|lia].
  unfold u32. apply Z.mod_pos_bound. reflexivity.
Qed.

Lemma ref_srand_resets : srand_resets.
Proof. intros seed r r'. reflexivity. Qed.

Lemma left_right_inverse_witness :
  presses InputKeyRight 1 (presses InputKeyLeft 1 world0) = world0.
Proof.
  assert (Hs : 0 <= style world0 <= 6) by (cbn; lia).
  exact (proj1 (left_right_inverse world0 Hs)).
Defined.

Lemma style_after_presses_witness :
  style (presses InputKeyRight 7 world0) = 0
  /\ style (presses InputKeyLeft 3 world0) = 4.
Proof.
  assert (Hs : 0 <= style world0 <= 6) by (cbn; lia).
  split.
  - exact (proj1 (style_after_presses 7 world0 Hs)).
  - exact (proj2 (style_after_presses 3 world0 Hs)).
Defined.

Lemma density_after_presses_witness :
  dot_threshold (presses InputKeyUp 10 world0) = 100
  /\ dot_threshold (presses InputKeyDown 10 world0) = 0.
Proof.
  assert (Hd : 0 <= dot_threshold world0 <= 100) by (cbn; lia).
  exact (density_after_presses 10 world0 Hd).
Defined.

Lemma up_down_round_trip_witness :
  dot_threshold
    (presses InputKeyDown 1 (presses InputKeyUp 1 (set_dot_threshold 100 world0)))
  = 90.
Proof.
  assert (Hd : 0 <= dot_threshold (set_dot_threshold 100 world0) <= 100)
    by (cbn; lia).
  exact (proj1 (up_down_round_trip (set_dot_threshold 100 world0) Hd)).
Defined.

Lemma static_styles_keep_rng_witness :
  rng (render_pattern 0 world0) = rng world0.
Proof.
  apply (static_styles_keep_rng 0 world0). left. reflexivity.
Defined.

Lemma density_zero_blank_witness :
  canvas (render_style0 (set_dot_threshold 0 world0)) = [].
Proof.
  exact (proj1 (density_zero_blank 0 (set_dot_threshold 0 world0)
                  ref_rand_nonneg eq_refl)).
Defined.

Lemma density_full_screen_witness :
  is_lit (render_style0 (set_dot_threshold 100 world0)) 127 63.
Proof.
  apply (density_full_screen (set_dot_threshold 100 world0) 127 63
           ref_rand_nonneg); cbn; unfold W, H; lia.
Defined.

Lemma noise_corner_dark_witness :
  ~ is_lit (render_style3 0 (set_dot_threshold 100 world0)) 0 0.
Proof.
  exact (noise_corner_dark 0 (set_dot_threshold 100 world0) ref_rand_nonneg).
Defined.

Lemma fallback_same_as_style3_witness :
  render_pattern 0 (set_style 3 (set_style 9 world0))
  = set_style 3 (render_pattern 0 (set_style 9 world0)).
Proof.
  apply (fallback_same_as_style3 0 (set_style 9 world0)). cbn. lia.
Defined.

Lemma noise_reproducible_witness :
  canvas (render_style3 5 (set_rng 42 (set_style 4 world0)))
  = canvas (render_style3 5 world0).
Proof.
  exact (proj1 (noise_reproducible 5 (set_rng 42 (set_style 4 world0)) world0
                  ref_srand_resets eq_refl eq_refl)).
Defined.

Lemma arcs_in_bounds_and_symmetric_witness :
  in_bounds (canvas (render_style1 (incr_frame world0)))
  /\ closed_under mirror_point (canvas (render_style1 (incr_frame world0))).
Proof.
  assert (Hf : 0 <= frame (incr_frame world0)) by (cbn; lia).
  destruct (arcs_in_bounds_and_symmetric (incr_frame world0) Hf)
    as [Hb [_ [_ Hp]]].
  split; [exact Hb | exact Hp].
Defined.

Lemma arcs_periodic_witness :
  canvas (render_style1 (set_frame 1 world0))
  = canvas (render_style1 (set_frame 8 world0)).
Proof.
  apply (arcs_periodic (set_frame 1 world0) (set_frame 8 world0));
    cbn; try lia; reflexivity.
Defined.

Lemma star_centre_lit_witness :
  is_lit (render_style2 (incr_frame world0)) (W / 2) (H / 2).
Proof.
  apply (star_centre_lit (incr_frame world0)); vm_compute; reflexivity.
Defined.

Lemma density_keys_on_uint8_witness :
  dot_threshold (presses InputKeyUp 1 (set_dot_threshold 250 world0)) = 4
  /\ dot_threshold (presses InputKeyDown 1 (set_dot_threshold 250 world0))
     = 240.
Proof.
  assert (Hd : 0 <= dot_threshold (set_dot_threshold 250 world0) < 256)
    by (cbn; lia).
  exact (density_keys_on_uint8 (set_dot_threshold 250 world0) Hd).
Defined.
